(** * Open CAS Linux: worker threads and exported block device

    A shallow embedding of [threads.c] (I/O queue worker, cleaner worker,
    fastest-queue selection) and of [modules/cas_cache/exp_obj.c] (life
    cycle of the exported block device), with the properties the
    specification states about them. *)

From Stdlib Require Import String.
From Stdlib Require Import ZArith NArith List Bool Lia Permutation.
Import ListNotations.

Set Implicit Arguments.

(** Linux error numbers the two files return (negated). *)
Module Errno.
Definition ENOMEM : Z := 12.
Definition EBUSY : Z := 16.
Definition EEXIST : Z := 17.
Definition ENODEV : Z := 19.
Definition EINVAL : Z := 22.
Definition ENAVAIL : Z := 119.
End Errno.

(* ================================================================== *)
(** * Part I: threads.c                                                 *)
(* ================================================================== *)

Module Threads.

Local Open Scope N_scope.

(** The pending counter of a queue is a [uint32_t]. *)
Definition UINT32_MOD : N := 2 ^ 32.

(** [struct cas_thread_info]: the fields the run loops read and write.
    [sync_data] points at the cleaner's local [ms]; the pointed value is
    kept here.  The wait queue [wq] has no content of its own: a thread
    blocked on it is a thread whose program counter stays at the wait. *)
Record cas_thread_info := mk_info {
  stop : bool;
  kicked : bool;
  compl : bool;
  sync_compl : bool;
  sync_data : N
}.

(** What [kzalloc] followed by [_cas_create_thread]'s initialisation
    leaves in the structure. *)
Definition fresh_info : cas_thread_info :=
  {| stop := false; kicked := false; compl := false;
     sync_compl := false; sync_data := 0 |}.

Definition set_stop (b : bool) (i : cas_thread_info) :=
  {| stop := b; kicked := kicked i; compl := compl i;
     sync_compl := sync_compl i; sync_data := sync_data i |}.
Definition set_kicked (b : bool) (i : cas_thread_info) :=
  {| stop := stop i; kicked := b; compl := compl i;
     sync_compl := sync_compl i; sync_data := sync_data i |}.
Definition set_compl (b : bool) (i : cas_thread_info) :=
  {| stop := stop i; kicked := kicked i; compl := b;
     sync_compl := sync_compl i; sync_data := sync_data i |}.
Definition set_sync_compl (b : bool) (i : cas_thread_info) :=
  {| stop := stop i; kicked := kicked i; compl := compl i;
     sync_compl := b; sync_data := sync_data i |}.
Definition set_sync_data (v : N) (i : cas_thread_info) :=
  {| stop := stop i; kicked := kicked i; compl := compl i;
     sync_compl := sync_compl i; sync_data := v |}.

(* ------------------------------------------------------------------ *)
(** ** cache_get_fastest_porter_queue                                   *)
(* ------------------------------------------------------------------ *)

(** The result of the selection: the index of [min_queue] in
    [cache_priv->queues], and how many calls of [ocf_queue_pending_io]
    the scan made. *)
Record selection := mk_sel { sel_index : nat; sel_reads : nat }.

(** The [for (i = 1; min_io && (i < cpus_no); i++)] loop.  [rest] holds
    the pending counts of queues [i], [i+1], ... *)
Fixpoint fastest_scan (rest : list N) (i : nat) (min_io : N)
         (min_queue : nat) (reads : nat) : selection :=
  match rest with
  | [] => mk_sel min_queue reads
  | cmp_io :: rest' =>
      if min_io =? 0 then mk_sel min_queue reads
      else if cmp_io <? min_io
           then fastest_scan rest' (S i) cmp_io i (S reads)
           else fastest_scan rest' (S i) min_io min_queue (S reads)
  end.

(** [queues] lists the pending count of each per-CPU porter queue, one
    per online CPU.  [None] is [ENV_BUG_ON(!cpus_no)]. *)
Definition cache_get_fastest_porter_queue (queues : list N)
  : option selection :=
  match queues with
  | [] => None
  | q0 :: rest => Some (fastest_scan rest 1 q0 0 1)
  end.

(* ------------------------------------------------------------------ *)
(** ** The I/O queue worker                                             *)
(* ------------------------------------------------------------------ *)

(** Where the kernel thread of a queue stands.  Blocking is a program
    counter that does not move: a thread at [QWait] whose condition is
    false stays there, and [wake_up] needs no state of its own.  Kernel
    threads ignore signals, so the interruptible wait ends on its
    condition only. *)
Inductive queue_pc :=
| QNone      (* no thread *)
| QCreated   (* kthread_create done, not yet woken *)
| QEntry     (* in queue_thread_run, before complete(&info->compl) *)
| QWait      (* at wait_event_interruptible *)
| QRun       (* at ocf_queue_run *)
| QCond      (* at the condition of the do-while *)
| QWarn      (* past the loop: WARN, then CAS_COMPLETE_AND_EXIT *)
| QExited
| QBug.      (* BUG_ON(!info), or the structure is gone *)

(** A queue together with its worker.  [q_priv] tells whether the
    queue's private slot holds the structure's address, [q_info] is the
    structure itself while it is allocated. *)
Record queue_world := mk_qw {
  q_pending : N;
  q_priv : bool;
  q_info : option cas_thread_info;
  q_pc : queue_pc;
  q_runs : nat;
  q_warned : bool
}.

Definition new_queue (pending : N) : queue_world :=
  {| q_pending := pending; q_priv := false; q_info := None;
     q_pc := QNone; q_runs := 0; q_warned := false |}.

Definition qw_pending v w :=
  {| q_pending := v; q_priv := q_priv w; q_info := q_info w;
     q_pc := q_pc w; q_runs := q_runs w; q_warned := q_warned w |}.
Definition qw_priv v w :=
  {| q_pending := q_pending w; q_priv := v; q_info := q_info w;
     q_pc := q_pc w; q_runs := q_runs w; q_warned := q_warned w |}.
Definition qw_info v w :=
  {| q_pending := q_pending w; q_priv := q_priv w; q_info := v;
     q_pc := q_pc w; q_runs := q_runs w; q_warned := q_warned w |}.
Definition qw_pc v w :=
  {| q_pending := q_pending w; q_priv := q_priv w; q_info := q_info w;
     q_pc := v; q_runs := q_runs w; q_warned := q_warned w |}.
Definition qw_runs v w :=
  {| q_pending := q_pending w; q_priv := q_priv w; q_info := q_info w;
     q_pc := q_pc w; q_runs := v; q_warned := q_warned w |}.
Definition qw_warned v w :=
  {| q_pending := q_pending w; q_priv := q_priv w; q_info := q_info w;
     q_pc := q_pc w; q_runs := q_runs w; q_warned := v |}.

Section QueueWorker.

(** [ocf_queue_run] belongs to the cache engine: all that is seen of it
    here is what it leaves in the pending counter. *)
Variable ocf_queue_run : N -> N.

(** One atomic action of [queue_thread_run].  The loop condition reads
    [stop] and, when it is set, the pending counter; [stop] is never
    reset, so reading both at the moment of the second read loses
    nothing. *)
Definition queue_thread_step (w : queue_world) : queue_world :=
  match q_info w with
  | None =>
      match q_pc w with
      | QNone | QCreated | QExited | QBug => w
      | _ => qw_pc QBug w
      end
  | Some info =>
      match q_pc w with
      | QEntry =>
          if q_priv w
          then qw_pc QWait (qw_info (Some (set_compl true info)) w)
          else qw_pc QBug w
      | QWait =>
          if negb (q_pending w =? 0) || stop info
          then qw_pc QRun w else w
      | QRun =>
          qw_pc QCond
            (qw_runs (S (q_runs w))
               (qw_pending (ocf_queue_run (q_pending w)) w))
      | QCond =>
          if negb (stop info) || negb (q_pending w =? 0)
          then qw_pc QWait w else qw_pc QWarn w
      | QWarn =>
          qw_pc QExited
            (qw_info (Some (set_compl true info))
               (qw_warned (negb (q_pending w =? 0)) w))
      | QNone | QCreated | QExited | QBug => w
      end
  end.

(** [wait_for_completion(&info->compl)] in the creating or stopping
    thread: the worker runs until it has completed [compl]. *)
Fixpoint wait_for_completion (fuel : nat) (w : queue_world)
  : option queue_world :=
  match q_info w with
  | None => None
  | Some info =>
      if compl info then Some w
      else match fuel with
           | O => None
           | S fuel' => wait_for_completion fuel' (queue_thread_step w)
           end
  end.

(** Results of the two fallible calls of [_cas_create_thread]. *)
Record create_oracle := mk_co {
  kzalloc_ok : bool;
  kthread_create_err : option positive  (* Some e: PTR_ERR(thread) = -e *)
}.

(** [_cas_create_thread]: the status and, on success, the structure. *)
Definition _cas_create_thread (o : create_oracle)
  : Z * option cas_thread_info :=
  if kzalloc_ok o then
    match kthread_create_err o with
    | Some e => (Z.neg e, None)
    | None => (0%Z, Some fresh_info)
    end
  else ((- Errno.ENOMEM)%Z, None).

(** [_cas_start_thread]: [wake_up_process], then wait for the worker's
    first [complete]. *)
Definition _cas_start_thread (fuel : nat) (w : queue_world)
  : option queue_world :=
  wait_for_completion fuel
    (match q_pc w with QCreated => qw_pc QEntry w | _ => w end).

Definition cas_create_queue_thread (o : create_oracle) (fuel : nat)
           (w : queue_world) : option (Z * queue_world) :=
  match _cas_create_thread o with
  | (result, Some info) =>
      let w1 := qw_priv true (qw_pc QCreated (qw_info (Some info) w)) in
      option_map (fun w2 => (result, w2)) (_cas_start_thread fuel w1)
  | (result, None) => Some (result, w)
  end.

(** [cas_kick_queue_thread]: a bare [wake_up]. *)
Definition cas_kick_queue_thread (w : queue_world) : queue_world := w.

(** [_cas_stop_thread], given whether the caller's [info] is non-null. *)
Definition _cas_stop_thread (fuel : nat) (have_info : bool)
           (w : queue_world) : option queue_world :=
  let after :=
    if have_info then
      match q_info w with
      | Some info =>
          wait_for_completion fuel
            (qw_info (Some (set_stop true (set_compl false info))) w)
      | None => None
      end
    else Some w in
  option_map (qw_info None) after.

Definition cas_stop_queue_thread (fuel : nat) (w : queue_world)
  : option queue_world :=
  let info := q_priv w in
  _cas_stop_thread fuel info (qw_priv false w).

(** What goes on around the worker before anybody stops it: the engine
    queues one more request, somebody kicks, or the worker itself makes
    one step. *)
Inductive sched_ev := EvEnqueue | EvKick | EvThread.

Definition apply_ev (w : queue_world) (e : sched_ev) : queue_world :=
  match e with
  | EvEnqueue => qw_pending ((q_pending w + 1) mod UINT32_MOD) w
  | EvKick => cas_kick_queue_thread w
  | EvThread => queue_thread_step w
  end.

Definition run_pattern (pattern : list sched_ev) (w : queue_world)
  : queue_world := fold_left apply_ev pattern w.

End QueueWorker.

(* ------------------------------------------------------------------ *)
(** ** The cleaner worker                                               *)
(* ------------------------------------------------------------------ *)

(** What can reach a sleeping or busy cleaner: [cas_kick_cleaner_thread]
    and the [atomic_set(&info->stop, 1)] of [_cas_stop_thread]. *)
Inductive wake_ev := WKick | WStop.

Definition cas_kick_cleaner_thread (i : cas_thread_info) :=
  set_kicked true i.

Definition apply_wake (i : cas_thread_info) (e : wake_ev) :=
  match e with
  | WKick => cas_kick_cleaner_thread i
  | WStop => set_stop true i
  end.

Definition apply_tick (i : cas_thread_info) (e : option wake_ev) :=
  match e with Some e' => apply_wake i e' | None => i end.

Definition woken (i : cas_thread_info) : bool := kicked i || stop i.

(** [wait_event_interruptible(info->wq, kicked || stop)].  [ticks] is
    what happens, jiffy after jiffy, from the moment the wait starts;
    past its end nothing ever happens.  [None]: the thread sleeps for
    ever.  Otherwise the structure at wake-up and the jiffies slept. *)
Fixpoint wait_event_interruptible (ticks : list (option wake_ev))
         (i : cas_thread_info) : option (cas_thread_info * nat) :=
  if woken i then Some (i, O)
  else match ticks with
       | [] => None
       | e :: ticks' =>
           match wait_event_interruptible ticks' (apply_tick i e) with
           | Some (i', n) => Some (i', S n)
           | None => None
           end
       end.

(** [wait_event_interruptible_timeout(info->wq, kicked || stop, t)]. *)
Fixpoint wait_event_interruptible_timeout (ticks : list (option wake_ev))
         (timeout : nat) (i : cas_thread_info) : cas_thread_info * nat :=
  if woken i then (i, O)
  else match timeout with
       | O => (i, O)
       | S timeout' =>
           let '(i', n) :=
             wait_event_interruptible_timeout (tl ticks) timeout'
               (apply_tick i (hd None ticks)) in
           (i', S n)
       end.

(** [_cas_cleaner_complete]: store the interval where [sync_data]
    points and complete [sync_compl]. *)
Definition _cas_cleaner_complete (interval : N) (i : cas_thread_info) :=
  set_sync_compl true (set_sync_data interval i).

Inductive wait_kind := WaitForever | WaitTimeout (jiffies : nat).

Inductive cleaner_obs :=
| ObsRun (queue : nat)                   (* ocf_cleaner_run(c, queue) *)
| ObsSlept (k : wait_kind) (slept : nat) (* a wait that returned *)
| ObsPending (io : N) (index : nat).     (* the printk at exit *)

Record cleaner_world := mk_cw {
  c_info : cas_thread_info;
  c_queues : list N;
  c_trace : list cleaner_obs
}.

(** What the surroundings do during one turn of the loop: the interval
    the engine hands to the completion callback, the kicks and stop that
    arrive while the pass runs, and those that arrive during the wait. *)
Record iter_oracle := mk_io {
  it_interval : N;
  it_during_pass : list wake_ev;
  it_during_wait : list (option wake_ev)
}.

Inductive iter_outcome :=
| IterBreak (w : cleaner_world)
| IterNext (w : cleaner_world)
| IterBlocked (w : cleaner_world)
| IterBug.

Section CleanerWorker.

(** Both come from outside this file: the engine's sentinel for "no
    periodic cleaning" and the kernel's conversion to jiffies. *)
Variable OCF_CLEANER_DISABLE : N.
Variable msecs_to_jiffies : N -> nat.

(** One turn of the [do { ... } while (true)] of [cleaner_thread_run]. *)
Definition cleaner_iteration (o : iter_oracle) (w : cleaner_world)
  : iter_outcome :=
  if stop (c_info w) then IterBreak w
  else
    let info := set_sync_compl false (set_kicked false (c_info w)) in
    match cache_get_fastest_porter_queue (c_queues w) with
    | None => IterBug
    | Some s =>
        let info := fold_left apply_wake (it_during_pass o) info in
        let info := _cas_cleaner_complete (it_interval o) info in
        let ms := sync_data info in
        if ms =? OCF_CLEANER_DISABLE then
          match wait_event_interruptible (it_during_wait o) info with
          | None =>
              IterBlocked
                (mk_cw info (c_queues w)
                       (c_trace w ++ [ObsRun (sel_index s)]))
          | Some (info', n) =>
              IterNext
                (mk_cw info' (c_queues w)
                       (c_trace w ++ [ObsRun (sel_index s);
                                      ObsSlept WaitForever n]))
          end
        else
          let '(info', n) :=
            wait_event_interruptible_timeout (it_during_wait o)
              (msecs_to_jiffies ms) info in
          IterNext
            (mk_cw info' (c_queues w)
                   (c_trace w ++ [ObsRun (sel_index s);
                                  ObsSlept (WaitTimeout
                                              (msecs_to_jiffies ms)) n]))
    end.

(** [cache_print_each_porter_queue_pending_io]. *)
Fixpoint print_pending (queues : list N) (i : nat) : list cleaner_obs :=
  match queues with
  | [] => []
  | io :: rest => ObsPending io i :: print_pending rest (S i)
  end.

(** Leaving the loop: the diagnostics, then [CAS_COMPLETE_AND_EXIT]. *)
Definition cleaner_exit (w : cleaner_world) : cleaner_world :=
  mk_cw (set_compl true (c_info w)) (c_queues w)
        (c_trace w ++ print_pending (c_queues w) 0).

Inductive loop_outcome :=
| LoopExited (w : cleaner_world)
| LoopRunning (w : cleaner_world)
| LoopBlocked (w : cleaner_world)
| LoopBug.

(** The whole loop, one oracle per turn. *)
Fixpoint cleaner_loop (os : list iter_oracle) (w : cleaner_world)
  : loop_outcome :=
  match os with
  | [] => if stop (c_info w) then LoopExited (cleaner_exit w)
          else LoopRunning w
  | o :: os' =>
      match cleaner_iteration o w with
      | IterBreak w' => LoopExited (cleaner_exit w')
      | IterNext w' => cleaner_loop os' w'
      | IterBlocked w' => LoopBlocked w'
      | IterBug => LoopBug
      end
  end.

(** [cleaner_thread_run]: the first [complete] that lets
    [_cas_start_thread] return, then the loop. *)
Definition cleaner_thread_run (os : list iter_oracle) (w : cleaner_world)
  : loop_outcome :=
  cleaner_loop os
    (mk_cw (set_compl true (c_info w)) (c_queues w) (c_trace w)).

End CleanerWorker.

End Threads.

(* ================================================================== *)
(** * Part II: modules/cas_cache/exp_obj.c                              *)
(* ================================================================== *)

Module ExpObj.

Import Errno.
Local Open Scope Z_scope.

Definition UINT_MAX : Z := 2 ^ 32 - 1.

(** Opaque addresses ([struct module *], [void *priv]); 0 is NULL. *)
Definition ptr := Z.
Definition NULL : ptr := 0.

(** ** Data *)

(** [struct gendisk], for the exported disk and for the disk of the
    bottom device alike: the fields this file touches. *)
Record gendisk := mk_gendisk {
  g_flags : Z;
  g_minors : Z;
  g_first_minor : Z;
  g_major : Z;
  g_disk_name : string;
  g_fops : bool;           (* fops == &_cas_exp_obj_ops *)
  g_private_data : bool    (* private_data == dsk *)
}.

Record request_queue := mk_queue {
  queuedata : bool;        (* queuedata == dsk *)
  make_request_fn : bool   (* _cas_exp_obj_make_rq_fn installed *)
}.

(** [struct cas_exp_obj_ops]; of [set_geometry] only the value it
    returns matters here, [None] is a null callback. *)
Record cas_exp_obj_ops := mk_ops {
  set_geometry : option Z
}.

(** [struct cas_exp_obj].  [kref] is the reference count of the embedded
    kobject.  [freed] is a ghost: it records that the memory went back
    to the slab cache, which a pointer still holding the address cannot
    see. *)
Record cas_exp_obj := mk_exp_obj {
  dev_name : option string;
  owner : ptr;
  ops : option cas_exp_obj_ops;
  gd : option gendisk;
  queue : option request_queue;
  activated : bool;
  kref : nat;
  freed : bool
}.

(** What [kmem_cache_zalloc] returns. *)
Definition zeroed_exp_obj : cas_exp_obj :=
  {| dev_name := None; owner := NULL; ops := None; gd := None;
     queue := None; activated := false; kref := 0; freed := false |}.

(** [struct cas_disk]. *)
Record cas_disk := mk_disk {
  exp_obj : option cas_exp_obj;
  private : ptr;
  openers : Z;
  claimed : bool;
  gd_flags : Z;
  gd_minors : Z;
  path : string;
  bd_whole : bool;         (* cas_bdev_whole(bd) == bd *)
  bd_disk : gendisk;       (* the bottom device's gendisk *)
  tag_set : bool           (* the tag set is allocated *)
}.

(** Calls into the kernel, in the order they are made; a fallible call
    is logged with its result. *)
Inductive action :=
| A_kmem_cache_zalloc (ok : bool)
| A_kmem_cache_free
| A_kstrdup (ok : bool)
| A_kfree_dev_name
| A_try_module_get (ok : bool)
| A_module_put
| A_kobject_init
| A_kobject_add (res : Z)
| A_kobject_put
| A_blk_mq_alloc_tag_set (res : Z)
| A_blk_mq_free_tag_set
| A_cas_alloc_mq_disk (res : Z)
| A_cas_cleanup_mq_disk
| A_filp_open (p : string) (ok : bool)
| A_filp_close
| A_vm_mmap (ok : bool)
| A_vm_munmap
| A_copy_to_user (res : Z)
| A_ioctl_blkpg (part_no : Z) (res : Z)
| A_reread_partitions
| A_cas_disk_allocate_minors (n : Z) (res : Z)
| A_blk_queue_make_request
| A_set_geometry (res : Z)
| A_kmalloc_path (ok : bool)
| A_kfree_path
| A_add_disk
| A_del_gendisk
| A_bd_link_disk_holder (res : Z)
| A_bd_unlink_disk_holder
| A_sysfs_create_link (res : Z)
| A_sysfs_remove_link
| A_blk_cleanup_queue
| A_put_disk.

Record world := mk_world {
  dsk : cas_disk;
  log : list action
}.

(** The kernel and the rest of the module as this file meets them:
    constants of headers, and the result of every call that can fail. *)
Record kernel := mk_kernel {
  DISK_NAME_LEN : nat;
  PATH_MAX : nat;
  _cas_flags : Z;
  disk_major : Z;
  disk_max_parts : gendisk -> Z;
  kmem_cache_zalloc_ok : bool;
  kstrdup_ok : bool;
  try_module_get_ok : bool;
  kobject_add_res : Z;
  blk_mq_alloc_tag_set_res : Z;
  cas_alloc_mq_disk_res : Z;
  filp_open_bdev_err : option Z;
  vm_mmap_bpart_err : option Z;
  vm_mmap_barg_err : option Z;
  copy_to_user_barg : Z;
  (* what cas_bd_get_next_part hands out, with the results of the
     copy_to_user and of the ioctl made for each partition *)
  partitions : list (Z * Z * Z);
  cas_disk_allocate_minors_res : Z;
  kmalloc_path_ok : bool;
  filp_open_ok : string -> bool;
  bd_link_disk_holder_res : Z;
  sysfs_create_link_res : Z
}.

(** ** Field updates *)

Definition gd_set_flags v g :=
  mk_gendisk v (g_minors g) (g_first_minor g) (g_major g)
             (g_disk_name g) (g_fops g) (g_private_data g).
Definition gd_set_minors v g :=
  mk_gendisk (g_flags g) v (g_first_minor g) (g_major g)
             (g_disk_name g) (g_fops g) (g_private_data g).
Definition gd_set_first_minor v g :=
  mk_gendisk (g_flags g) (g_minors g) v (g_major g)
             (g_disk_name g) (g_fops g) (g_private_data g).
Definition gd_set_major v g :=
  mk_gendisk (g_flags g) (g_minors g) (g_first_minor g) v
             (g_disk_name g) (g_fops g) (g_private_data g).
Definition gd_set_disk_name v g :=
  mk_gendisk (g_flags g) (g_minors g) (g_first_minor g) (g_major g)
             v (g_fops g) (g_private_data g).
Definition gd_set_fops v g :=
  mk_gendisk (g_flags g) (g_minors g) (g_first_minor g) (g_major g)
             (g_disk_name g) v (g_private_data g).
Definition gd_set_private_data v g :=
  mk_gendisk (g_flags g) (g_minors g) (g_first_minor g) (g_major g)
             (g_disk_name g) (g_fops g) v.

Definition eo_set_dev_name v o :=
  mk_exp_obj v (owner o) (ops o) (gd o) (queue o) (activated o)
             (kref o) (freed o).
Definition eo_set_owner v o :=
  mk_exp_obj (dev_name o) v (ops o) (gd o) (queue o) (activated o)
             (kref o) (freed o).
Definition eo_set_ops v o :=
  mk_exp_obj (dev_name o) (owner o) v (gd o) (queue o) (activated o)
             (kref o) (freed o).
Definition eo_set_gd v o :=
  mk_exp_obj (dev_name o) (owner o) (ops o) v (queue o) (activated o)
             (kref o) (freed o).
Definition eo_set_queue v o :=
  mk_exp_obj (dev_name o) (owner o) (ops o) (gd o) v (activated o)
             (kref o) (freed o).
Definition eo_set_activated v o :=
  mk_exp_obj (dev_name o) (owner o) (ops o) (gd o) (queue o) v
             (kref o) (freed o).
Definition eo_set_kref v o :=
  mk_exp_obj (dev_name o) (owner o) (ops o) (gd o) (queue o)
             (activated o) v (freed o).
Definition eo_set_freed v o :=
  mk_exp_obj (dev_name o) (owner o) (ops o) (gd o) (queue o)
             (activated o) (kref o) v.

Definition d_set_exp_obj v d :=
  mk_disk v (private d) (openers d) (claimed d) (gd_flags d)
          (gd_minors d) (path d) (bd_whole d) (bd_disk d) (tag_set d).
Definition d_set_private v d :=
  mk_disk (exp_obj d) v (openers d) (claimed d) (gd_flags d)
          (gd_minors d) (path d) (bd_whole d) (bd_disk d) (tag_set d).
Definition d_set_openers v d :=
  mk_disk (exp_obj d) (private d) v (claimed d) (gd_flags d)
          (gd_minors d) (path d) (bd_whole d) (bd_disk d) (tag_set d).
Definition d_set_claimed v d :=
  mk_disk (exp_obj d) (private d) (openers d) v (gd_flags d)
          (gd_minors d) (path d) (bd_whole d) (bd_disk d) (tag_set d).
Definition d_set_gd_flags v d :=
  mk_disk (exp_obj d) (private d) (openers d) (claimed d) v
          (gd_minors d) (path d) (bd_whole d) (bd_disk d) (tag_set d).
Definition d_set_gd_minors v d :=
  mk_disk (exp_obj d) (private d) (openers d) (claimed d) (gd_flags d)
          v (path d) (bd_whole d) (bd_disk d) (tag_set d).
Definition d_set_bd_disk v d :=
  mk_disk (exp_obj d) (private d) (openers d) (claimed d) (gd_flags d)
          (gd_minors d) (path d) (bd_whole d) v (tag_set d).
Definition d_set_tag_set v d :=
  mk_disk (exp_obj d) (private d) (openers d) (claimed d) (gd_flags d)
          (gd_minors d) (path d) (bd_whole d) (bd_disk d) v.

(** ** The monad: the disk and the log threaded through, [BUG_ON] and
    null dereferences ending the run. *)

Inductive outcome (A : Type) :=
| Ret (a : A) (w : world)
| Bug (w : world).
Arguments Bug {A} w.

Definition M (A : Type) := world -> outcome A.

Definition ret {A} (a : A) : M A := fun w => Ret a w.

Definition bind {A B} (m : M A) (f : A -> M B) : M B :=
  fun w => match m w with
           | Ret a w' => f a w'
           | Bug w' => Bug w'
           end.

Notation "x <- m ;; k" := (bind m (fun x => k))
  (at level 61, m at next level, right associativity).
Notation "m ;; k" := (bind m (fun _ => k))
  (at level 61, right associativity).

Definition BUG_ON (c : bool) : M unit :=
  fun w => if c then Bug w else Ret tt w.

Definition call (a : action) : M unit :=
  fun w => Ret tt (mk_world (dsk w) (log w ++ [a])).

Definition get_dsk : M cas_disk := fun w => Ret (dsk w) w.

Definition modify_dsk (f : cas_disk -> cas_disk) : M unit :=
  fun w => Ret tt (mk_world (f (dsk w)) (log w)).

(** [dsk->exp_obj->...]: reading through a null pointer ends the run. *)
Definition get_exp_obj : M cas_exp_obj :=
  fun w => match exp_obj (dsk w) with
           | Some o => Ret o w
           | None => Bug w
           end.

Definition modify_exp_obj (f : cas_exp_obj -> cas_exp_obj) : M unit :=
  o <- get_exp_obj ;;
  modify_dsk (d_set_exp_obj (Some (f o))).

Definition is_some {A} (o : option A) : bool :=
  match o with Some _ => true | None => false end.

(** ** open, close, lock, unlock *)

(** [_cas_exp_obj_open]: the disk is reached through
    [bdev->bd_disk->private_data]. *)
Definition _cas_exp_obj_open : M Z :=
  d <- get_dsk ;;
  if negb (claimed d) then
    if openers d =? UINT_MAX then ret (- EBUSY)
    else modify_dsk (d_set_openers ((openers d + 1) mod 2 ^ 32)) ;;
         ret 0
  else ret (- ENAVAIL).

Definition _cas_exp_obj_close : M unit :=
  d <- get_dsk ;;
  BUG_ON (openers d =? 0) ;;
  modify_dsk (d_set_openers ((openers d - 1) mod 2 ^ 32)).

Definition cas_exp_obj_lock : M Z :=
  d <- get_dsk ;;
  BUG_ON (negb (is_some (exp_obj d))) ;;
  if openers d =? 0 then
    modify_dsk (d_set_claimed true) ;; ret 0
  else ret (- EBUSY).

Definition cas_exp_obj_unlock : M Z :=
  modify_dsk (d_set_claimed false) ;; ret 0.

(** ** Allocation and release of the object *)

Definition cas_exp_obj_alloc (k : kernel) : M Z :=
  d <- get_dsk ;;
  BUG_ON (is_some (exp_obj d)) ;;
  call (A_kmem_cache_zalloc (kmem_cache_zalloc_ok k)) ;;
  if kmem_cache_zalloc_ok k then
    modify_dsk (d_set_exp_obj (Some zeroed_exp_obj)) ;; ret 0
  else ret (- ENOMEM).

(** [__cas_exp_obj_release]: back to the slab cache. *)
Definition __cas_exp_obj_release : M unit :=
  call A_kmem_cache_free ;;
  modify_exp_obj (eo_set_freed true).

(** [kfree(exp_obj->dev_name)]; [kfree(NULL)] does nothing. *)
Definition kfree_dev_name : M unit :=
  o <- get_exp_obj ;;
  if is_some (dev_name o) then call A_kfree_dev_name else ret tt.

(** [_cas_exp_obj_release], the [release] of [cas_exp_obj_ktype]. *)
Definition _cas_exp_obj_release : M unit :=
  o <- get_exp_obj ;;
  let owner := owner o in
  kfree_dev_name ;;
  __cas_exp_obj_release ;;
  if owner =? NULL then ret tt else call A_module_put.

(** [kobject_put(&exp_obj->kobj)]: the last reference runs the
    [release] of the kobject's type. *)
Definition kobject_put : M unit :=
  o <- get_exp_obj ;;
  call A_kobject_put ;;
  match kref o with
  | 1%nat => modify_exp_obj (eo_set_kref 0) ;; _cas_exp_obj_release
  | S n => modify_exp_obj (eo_set_kref n)
  | O => ret tt
  end.

Definition cas_exp_obj_free : M unit :=
  d <- get_dsk ;;
  match exp_obj d with
  | None => ret tt
  | Some _ => kobject_put ;; modify_dsk (d_set_exp_obj None)
  end.

Definition _cas_exp_obj_init_kobject (k : kernel) : M Z :=
  call A_kobject_init ;;
  modify_exp_obj (eo_set_kref 1) ;;
  call (A_kobject_add (kobject_add_res k)) ;;
  ret (kobject_add_res k).

Definition _cas_init_tag_set (k : kernel) : M Z :=
  call (A_blk_mq_alloc_tag_set (blk_mq_alloc_tag_set_res k)) ;;
  modify_dsk (d_set_tag_set (blk_mq_alloc_tag_set_res k =? 0)) ;;
  ret (blk_mq_alloc_tag_set_res k).

Definition zeroed_gendisk : gendisk :=
  mk_gendisk 0 0 0 0 EmptyString false false.

(** [cas_alloc_mq_disk(&gd, &queue, &dsk->tag_set)], a macro of the
    generated kernel-version header: on success a fresh disk and its
    queue. *)
Definition cas_alloc_mq_disk (k : kernel)
  : M (Z * option (gendisk * request_queue)) :=
  call (A_cas_alloc_mq_disk (cas_alloc_mq_disk_res k)) ;;
  if cas_alloc_mq_disk_res k =? 0
  then ret (0, Some (zeroed_gendisk, mk_queue false false))
  else ret (cas_alloc_mq_disk_res k, None).

(** ** Hiding the partitions of the bottom device *)

(** The [while ((part_no = cas_bd_get_next_part(bd)))] loop; it is
    entered with [result == 0]. *)
Fixpoint del_partitions_loop (parts : list (Z * Z * Z)) : M Z :=
  match parts with
  | [] => ret 0
  | (part_no, copied, ioctl) :: rest =>
      if part_no =? 0 then ret 0
      else
        call (A_copy_to_user copied) ;;
        if negb (copied =? 0) then ret (- EINVAL)
        else
          call (A_ioctl_blkpg part_no ioctl) ;;
          if ioctl =? 0 then del_partitions_loop rest else ret ioctl
  end.

Definition _cas_del_partitions (k : kernel) : M Z :=
  d <- get_dsk ;;
  match filp_open_bdev_err k with
  | Some e => call (A_filp_open (path d) false) ;; ret e
  | None =>
      call (A_filp_open (path d) true) ;;
      match vm_mmap_bpart_err k with
      | Some e => call (A_vm_mmap false) ;; call A_filp_close ;; ret e
      | None =>
          call (A_vm_mmap true) ;;
          match vm_mmap_barg_err k with
          | Some e =>
              call (A_vm_mmap false) ;;
              call A_vm_munmap ;; call A_filp_close ;; ret e
          | None =>
              call (A_vm_mmap true) ;;
              call (A_copy_to_user (copy_to_user_barg k)) ;;
              result <- (if negb (copy_to_user_barg k =? 0)
                         then ret (- EINVAL)
                         else del_partitions_loop (partitions k)) ;;
              call A_vm_munmap ;;
              call A_vm_munmap ;;
              call A_filp_close ;;
              ret result
          end
      end
  end.

Definition _cas_exp_obj_hide_parts (k : kernel) : M Z :=
  d <- get_dsk ;;
  if negb (bd_whole d) then ret 0
  else
    r <- (if disk_max_parts k (bd_disk d) >? 1
          then _cas_del_partitions k else ret 0) ;;
    if negb (r =? 0) then call A_reread_partitions ;; ret (- EINVAL)
    else
      modify_dsk (fun d =>
        d_set_gd_minors (g_minors (bd_disk d))
          (d_set_gd_flags (Z.land (g_flags (bd_disk d)) (_cas_flags k))
             d)) ;;
      modify_dsk (fun d =>
        d_set_bd_disk
          (gd_set_minors 1
             (gd_set_flags
                (Z.land (g_flags (bd_disk d)) (Z.lnot (_cas_flags k)))
                (bd_disk d))) d) ;;
      call A_reread_partitions ;;
      ret 0.

(** Writes through [gd == dsk->exp_obj->gd]. *)
Definition modify_gd (f : gendisk -> gendisk) : M unit :=
  o <- get_exp_obj ;;
  match gd o with
  | Some g => modify_exp_obj (eo_set_gd (Some (f g)))
  | None => fun w => Bug w
  end.

Definition _cas_exp_obj_set_dev_t (k : kernel) : M Z :=
  d <- get_dsk ;;
  let minors0 := disk_max_parts k (bd_disk d) in
  mf <- (if negb (bd_whole d) then ret (Some (1, 0))
         else
           r <- _cas_exp_obj_hide_parts k ;;
           if negb (r =? 0) then ret None
           else d' <- get_dsk ;; ret (Some (minors0, gd_flags d'))) ;;
  match mf with
  | None => ret (- EINVAL)
  | Some (minors, flags) =>
      let first := cas_disk_allocate_minors_res k in
      call (A_cas_disk_allocate_minors minors first) ;;
      modify_gd (gd_set_first_minor first) ;;
      if first <? 0 then ret (- EINVAL)
      else
        modify_gd (fun g =>
          gd_set_flags (Z.lor (g_flags g) flags)
            (gd_set_major (disk_major k) (gd_set_minors minors g))) ;;
        ret 0
  end.

Definition _cas_exp_obj_clear_dev_t : M unit :=
  d <- get_dsk ;;
  if bd_whole d then
    modify_dsk (fun d =>
      d_set_bd_disk
        (gd_set_flags (Z.lor (g_flags (bd_disk d)) (gd_flags d))
           (gd_set_minors (gd_minors d) (bd_disk d))) d) ;;
    call A_reread_partitions
  else ret tt.

(** ** cas_exp_obj_create *)

(** [_cas_init_queues] only stores [dsk] in the hardware contexts of the
    queue and has no part in what follows; it is left out.

    The labels of the error path, each falling through to the next. *)
Definition error_exp_obj_alloc (result : Z) : M Z := ret result.

Definition error_kstrdup (result : Z) : M Z :=
  __cas_exp_obj_release ;;
  modify_dsk (d_set_exp_obj None) ;;
  error_exp_obj_alloc result.

Definition error_module_get (result : Z) : M Z :=
  kfree_dev_name ;;
  error_kstrdup result.

Definition error_init_kobject (result : Z) : M Z :=
  call A_module_put ;;
  modify_exp_obj (eo_set_owner NULL) ;;
  error_module_get result.

(** "kobject put does all the cleanup below internally", and the
    function returns from here. *)
Definition error_init_tag_set (result : Z) : M Z :=
  kobject_put ;;
  ret result.

Definition error_alloc_mq_disk (result : Z) : M Z :=
  call A_blk_mq_free_tag_set ;;
  modify_dsk (d_set_tag_set false) ;;
  error_init_tag_set result.

Definition error_exp_obj_set_dev_t (result : Z) : M Z :=
  call A_cas_cleanup_mq_disk ;;
  modify_exp_obj (eo_set_gd None) ;;
  error_alloc_mq_disk result.

Definition error_set_geometry (result : Z) : M Z :=
  modify_dsk (d_set_private NULL) ;;
  _cas_exp_obj_clear_dev_t ;;
  error_exp_obj_set_dev_t result.

Definition cas_exp_obj_create (k : kernel) (name : string)
           (owner : ptr) (ops : option cas_exp_obj_ops) (priv : ptr)
  : M Z :=
  BUG_ON (owner =? NULL) ;;
  BUG_ON (negb (is_some ops)) ;;
  d <- get_dsk ;;
  BUG_ON (is_some (exp_obj d)) ;;
  if (DISK_NAME_LEN k <=? String.length name)%nat then ret (- EINVAL)
  else
  result <- cas_exp_obj_alloc k ;;
  if negb (result =? 0) then error_exp_obj_alloc result else
  call (A_kstrdup (kstrdup_ok k)) ;;
  if negb (kstrdup_ok k) then error_kstrdup (- ENOMEM) else
  modify_exp_obj (eo_set_dev_name (Some name)) ;;
  call (A_try_module_get (try_module_get_ok k)) ;;
  if negb (try_module_get_ok k) then error_module_get (- ENAVAIL) else
  modify_exp_obj (fun o => eo_set_ops ops (eo_set_owner owner o)) ;;
  result <- _cas_exp_obj_init_kobject k ;;
  if negb (result =? 0) then error_init_kobject result else
  result <- _cas_init_tag_set k ;;
  if negb (result =? 0) then error_init_tag_set result else
  rq <- cas_alloc_mq_disk k ;;
  match rq with
  | (result, None) => error_alloc_mq_disk result
  | (_, Some (new_gd, new_queue)) =>
      modify_exp_obj (eo_set_gd (Some new_gd)) ;;
      result <- _cas_exp_obj_set_dev_t k ;;
      if negb (result =? 0) then error_exp_obj_set_dev_t result else
      BUG_ON (queuedata new_queue) ;;
      modify_exp_obj
        (eo_set_queue (Some (mk_queue true (make_request_fn new_queue)))) ;;
      modify_dsk (d_set_private priv) ;;
      modify_gd (fun g =>
        gd_set_disk_name (substring 0 (DISK_NAME_LEN k - 1) name)
          (gd_set_private_data true (gd_set_fops true g))) ;;
      call A_blk_queue_make_request ;;
      modify_exp_obj (fun o =>
        eo_set_queue (option_map (fun q => mk_queue (queuedata q) true)
                                 (queue o)) o) ;;
      match ops with
      | Some (mk_ops (Some geometry)) =>
          call (A_set_geometry geometry) ;;
          if negb (geometry =? 0) then error_set_geometry geometry
          else ret 0
      | _ => ret 0
      end
  end.

(** ** cas_exp_obj_activate *)

Definition _cas_exp_obj_exists (k : kernel) (p : string) : M bool :=
  call (A_filp_open p (filp_open_ok k p)) ;;
  if filp_open_ok k p then call A_filp_close ;; ret true
  else ret false.

(** [snprintf(path, PATH_MAX, "/dev/%s", dsk->exp_obj->dev_name)]. *)
Definition device_path (k : kernel) (name : option string) : string :=
  substring 0 (PATH_MAX k - 1)
    ("/dev/" ++ match name with Some n => n | None => "(null)" end).

Definition error_bd_claim (result : Z) : M Z :=
  call A_del_gendisk ;;
  modify_exp_obj (eo_set_activated false) ;;
  ret result.

Definition error_sysfs_link (result : Z) : M Z :=
  call A_bd_unlink_disk_holder ;;
  error_bd_claim result.

Definition cas_exp_obj_activate (k : kernel) : M Z :=
  o <- get_exp_obj ;;
  BUG_ON (negb (is_some (gd o))) ;;
  BUG_ON (activated o) ;;
  call (A_kmalloc_path (kmalloc_path_ok k)) ;;
  if negb (kmalloc_path_ok k) then ret (- ENOMEM) else
  present <- _cas_exp_obj_exists k (device_path k (dev_name o)) ;;
  if present then call A_kfree_path ;; ret (- EEXIST) else
  call A_kfree_path ;;
  modify_exp_obj (eo_set_activated true) ;;
  call A_add_disk ;;
  call (A_bd_link_disk_holder (bd_link_disk_holder_res k)) ;;
  if negb (bd_link_disk_holder_res k =? 0)
  then error_bd_claim (bd_link_disk_holder_res k) else
  call (A_sysfs_create_link (sysfs_create_link_res k)) ;;
  if negb (sysfs_create_link_res k =? 0)
  then error_sysfs_link (sysfs_create_link_res k) else
  ret 0.

(** ** cas_exp_obj_destroy *)

Definition cas_exp_obj_destroy : M Z :=
  d <- get_dsk ;;
  match exp_obj d with
  | None => ret (- ENODEV)
  | Some o =>
      (if activated o then
         call A_sysfs_remove_link ;;
         call A_bd_unlink_disk_holder ;;
         _cas_exp_obj_clear_dev_t ;;
         call A_del_gendisk
       else ret tt) ;;
      (if is_some (queue o) then call A_blk_cleanup_queue else ret tt) ;;
      call A_blk_mq_free_tag_set ;;
      modify_dsk (d_set_tag_set false) ;;
      call A_put_disk ;;
      ret 0
  end.

(** ** Reading the log: what a call acquires and what it gives back *)

Inductive resource :=
| RObj | RName | RModule | RKobj | RTagSet | RMqDisk
| RRegistered | RHolder | RSymlink.

Definition acquire_of (a : action) : option resource :=
  match a with
  | A_kmem_cache_zalloc true => Some RObj
  | A_kstrdup true => Some RName
  | A_try_module_get true => Some RModule
  | A_kobject_add res => if res =? 0 then Some RKobj else None
  | A_blk_mq_alloc_tag_set res => if res =? 0 then Some RTagSet else None
  | A_cas_alloc_mq_disk res => if res =? 0 then Some RMqDisk else None
  | A_add_disk => Some RRegistered
  | A_bd_link_disk_holder res => if res =? 0 then Some RHolder else None
  | A_sysfs_create_link res => if res =? 0 then Some RSymlink else None
  | _ => None
  end.

Definition release_of (a : action) : option resource :=
  match a with
  | A_kmem_cache_free => Some RObj
  | A_kfree_dev_name => Some RName
  | A_module_put => Some RModule
  | A_kobject_put => Some RKobj
  | A_blk_mq_free_tag_set => Some RTagSet
  | A_cas_cleanup_mq_disk => Some RMqDisk
  | A_del_gendisk => Some RRegistered
  | A_bd_unlink_disk_holder => Some RHolder
  | A_sysfs_remove_link => Some RSymlink
  | _ => None
  end.

Fixpoint filter_map {A B} (f : A -> option B) (l : list A) : list B :=
  match l with
  | [] => []
  | a :: l' => match f a with
               | Some b => b :: filter_map f l'
               | None => filter_map f l'
               end
  end.

Definition acquired (l : list action) : list resource :=
  filter_map acquire_of l.
Definition released (l : list action) : list resource :=
  filter_map release_of l.

(** The order in which a failing [cas_exp_obj_create] gives back what it
    holds: once the kobject is registered everything acquired after it
    goes first, last-in first-out, and then the kobject, whose release
    frees the name and the object and puts the module last; before
    that, plain last-in first-out. *)
Definition kobject_unwind (acq : list resource) : list resource :=
  match acq with
  | RObj :: RName :: RModule :: RKobj :: later =>
      rev later ++ [RKobj; RName; RObj; RModule]
  | _ => rev acq
  end.

(** A disk on which [cas_exp_obj_create] never ran. *)
Definition fresh_disk (p : string) (whole : bool) (bottom : gendisk)
  : cas_disk :=
  mk_disk None NULL 0 false 0 0 p whole bottom false.

End ExpObj.

(* ================================================================== *)
(** * Properties of threads.c                                           *)
(* ================================================================== *)

Section FastestQueue.

Import Threads.
Local Open Scope N_scope.

(** Position of the first queue with nothing pending, if any. *)
Fixpoint first_zero (l : list N) : option nat :=
  match l with
  | [] => None
  | x :: l' => if x =? 0 then Some O
               else option_map S (first_zero l')
  end.

Definition expected_reads (l : list N) : nat :=
  match first_zero l with
  | Some k => S k
  | None => length l
  end.

(** Invariant of the scan, entered at index [i] with a positive running
    minimum held by an earlier queue. *)
Lemma fastest_scan_spec :
  forall rest pre min_io min_queue reads,
    (min_queue < length pre)%nat ->
    nth min_queue pre 0 = min_io ->
    (forall j, (j < length pre)%nat -> min_io <= nth j pre 0) ->
    (forall j, (j < min_queue)%nat -> min_io < nth j pre 0) ->
    let s := fastest_scan rest (length pre) min_io min_queue reads in
    let all := pre ++ rest in
    (sel_index s < length all)%nat /\
    (forall j, (j < length all)%nat ->
               nth (sel_index s) all 0 <= nth j all 0) /\
    (forall j, (j < sel_index s)%nat ->
               nth (sel_index s) all 0 < nth j all 0) /\
    sel_reads s =
      (reads + (if (min_io =? 0)%N then O else expected_reads rest))%nat.
Proof.
  induction rest as [|c rest IH]; intros pre m mq reads Hlt Hnth Hmin Hfirst.
  - cbn. rewrite app_nil_r. repeat split; auto.
    + rewrite Hnth. auto.
    + rewrite Hnth. auto.
    + destruct (m =? 0); cbn; lia.
  - cbn [fastest_scan]. destruct (N.eqb_spec m 0) as [Hz|Hnz].
    + cbn. repeat split.
      * rewrite length_app. lia.
      * intros j _. rewrite app_nth1 by lia. rewrite Hnth. lia.
      * intros j Hj. assert (j < length pre)%nat by lia.
        rewrite !app_nth1 by lia. rewrite Hnth. auto.
      * lia.
    + assert (Hall : pre ++ c :: rest = (pre ++ [c]) ++ rest)
        by (rewrite <- app_assoc; reflexivity).
      assert (Hlen : length (pre ++ [c]) = S (length pre))
        by (rewrite length_app; cbn; lia).
      destruct (N.ltb_spec c m) as [Hc|Hc].
      * specialize (IH (pre ++ [c]) c (length pre) (S reads)).
        rewrite Hlen in IH. rewrite Hall.
        destruct IH as (H1 & H2 & H3 & H4).
        -- lia.
        -- rewrite app_nth2 by lia. rewrite Nat.sub_diag. reflexivity.
        -- intros j Hj. destruct (Nat.eq_dec j (length pre)) as [->|Hne].
           ++ rewrite app_nth2 by lia. rewrite Nat.sub_diag. cbn. lia.
           ++ rewrite app_nth1 by lia. specialize (Hmin j). lia.
        -- intros j Hj. rewrite app_nth1 by lia. specialize (Hmin j Hj). lia.
        -- repeat split; auto. rewrite H4. unfold expected_reads. cbn.
           destruct (N.eqb_spec c 0); cbn.
           ++ lia.
           ++ destruct (first_zero rest); cbn; lia.
      * specialize (IH (pre ++ [c]) m mq (S reads)).
        rewrite Hlen in IH. rewrite Hall.
        destruct IH as (H1 & H2 & H3 & H4).
        -- lia.
        -- rewrite app_nth1 by lia. exact Hnth.
        -- intros j Hj. destruct (Nat.eq_dec j (length pre)) as [->|Hne].
           ++ rewrite app_nth2 by lia. rewrite Nat.sub_diag. cbn. lia.
           ++ rewrite app_nth1 by lia. apply Hmin. lia.
        -- intros j Hj. rewrite app_nth1 by lia. auto.
        -- repeat split; auto. rewrite H4. unfold expected_reads. cbn.
           destruct (N.eqb_spec m 0); [contradiction|].
           destruct (N.eqb_spec c 0); [lia|].
           destruct (first_zero rest); cbn; lia.
Qed.

(** C2.  On a non-empty array of per-CPU queues the selector returns the
    lowest index whose pending count is the minimum of the whole array;
    it reads the counters up to and including the first one that is zero
    and no further (all of them when none is zero).  For [5,3,3,8] the
    answer is index 1, for [0,0,0] index 0 after a single read. *)
Theorem fastest_queue_first_minimum :
  (forall q0 rest,
     exists s, cache_get_fastest_porter_queue (q0 :: rest) = Some s /\
       (sel_index s < length (q0 :: rest))%nat /\
       (forall j, (j < length (q0 :: rest))%nat ->
          nth (sel_index s) (q0 :: rest) 0 <= nth j (q0 :: rest) 0) /\
       (forall j, (j < sel_index s)%nat ->
          nth (sel_index s) (q0 :: rest) 0 < nth j (q0 :: rest) 0) /\
       sel_reads s = expected_reads (q0 :: rest)) /\
  cache_get_fastest_porter_queue [5; 3; 3; 8] = Some (mk_sel 1 4) /\
  cache_get_fastest_porter_queue [0; 0; 0] = Some (mk_sel 0 1).
Proof.
  split; [|split; reflexivity].
  intros q0 rest. eexists. split; [reflexivity|].
  pose proof (@fastest_scan_spec rest [q0] q0 0%nat 1%nat) as H.
  cbn [length app] in H.
  destruct H as (H1 & H2 & H3 & H4).
  - lia.
  - reflexivity.
  - intros j Hj. assert (j = 0%nat) by lia. subst. cbn. lia.
  - intros j Hj. lia.
  - repeat split; auto.
    rewrite H4. unfold expected_reads. cbn [first_zero].
    destruct (q0 =? 0); cbn; [reflexivity|].
    destruct (first_zero rest); cbn; lia.
Qed.

End FastestQueue.

Section QueueWorkerProps.

Import Threads.
Local Open Scope N_scope.

Variable ocf_queue_run : N -> N.

Local Abbreviation step := (queue_thread_step ocf_queue_run).
Local Abbreviation wait := (wait_for_completion ocf_queue_run).

(** A started worker that nobody has stopped yet. *)
Definition live (w : queue_world) : Prop :=
  q_priv w = true /\
  exists i, q_info w = Some i /\ stop i = false /\ compl i = true /\
            (q_pc w = QWait \/ q_pc w = QRun \/ q_pc w = QCond).

(** A worker that was told to stop and is being waited for. *)
Definition draining (w : queue_world) : Prop :=
  exists i, q_info w = Some i /\ stop i = true /\
    ((compl i = false /\
      (q_pc w = QWait \/ q_pc w = QRun \/ q_pc w = QCond \/
       (q_pc w = QWarn /\ q_pending w = 0))) \/
     (compl i = true /\ q_pc w = QExited /\ q_pending w = 0)).

Lemma loop_exit_iff (w : queue_world) :
  q_pc (step w) = QWarn <->
  (q_pc w = QCond /\
   exists i, q_info w = Some i /\ stop i = true /\ q_pending w = 0).
Proof.
  unfold queue_thread_step. split.
  - destruct (q_info w) as [i|] eqn:Hi.
    + destruct (q_pc w) eqn:Hpc; cbn; try congruence.
      * destruct (q_priv w); cbn; congruence.
      * destruct (negb (q_pending w =? 0) || stop i); cbn; congruence.
      * destruct (stop i) eqn:Hs; cbn.
        -- destruct (N.eqb_spec (q_pending w) 0); cbn; try congruence.
           intros _. split; [reflexivity|]. exists i. auto.
        -- congruence.
    + destruct (q_pc w) eqn:Hpc; cbn; congruence.
  - intros (Hpc & i & Hi & Hs & Hp).
    rewrite Hi, Hpc, Hs, Hp. reflexivity.
Qed.

Lemma live_started (o : create_oracle) (cf : nat) (p0 : N) w0 :
  cas_create_queue_thread ocf_queue_run o cf (new_queue p0)
    = Some (0%Z, w0) ->
  live w0.
Proof.
  unfold cas_create_queue_thread, _cas_create_thread.
  destruct (kzalloc_ok o); [|cbn; intros [=]].
  destruct (kthread_create_err o); [cbn; intros [=]|].
  destruct cf as [|cf]; cbn; [intros [=]|].
  destruct cf; cbn; intros [= <-]; (split; [reflexivity|]);
  (eexists; split; [reflexivity|]; cbn; auto 10).
Qed.

Lemma live_apply_ev w e : live w -> live (apply_ev ocf_queue_run w e).
Proof.
  intros (Hp & i & Hi & Hs & Hc & Hpc). destruct e; cbn.
  - split; [exact Hp|]. exists i. cbn. auto 10.
  - split; [exact Hp|]. exists i. auto 10.
  - unfold queue_thread_step. rewrite Hi.
    destruct Hpc as [H|[H|H]]; rewrite H.
    + rewrite Hs.
      destruct (negb (q_pending w =? 0) || false); cbn.
      * split; [exact Hp|]. exists i. cbn. auto 10.
      * split; [exact Hp|]. exists i. auto 10.
    + split; [exact Hp|]. exists i. cbn. auto 10.
    + rewrite Hs. cbn. split; [exact Hp|]. exists i. cbn. auto 10.
Qed.

Lemma live_run_pattern pattern :
  forall w, live w -> live (run_pattern ocf_queue_run pattern w).
Proof.
  induction pattern as [|e pattern IH]; intros w Hw; cbn; [exact Hw|].
  apply IH. apply live_apply_ev. exact Hw.
Qed.

Lemma draining_step w : draining w -> draining (step w).
Proof.
  intros (i & Hi & Hs & H). unfold queue_thread_step. rewrite Hi.
  destruct H as [(Hc & [H|[H|[H|(H & Hp)]]])|(Hc & H & Hp)]; rewrite H.
  - rewrite Hs, orb_true_r. exists i. cbn. auto 10.
  - exists i. cbn. auto 10.
  - rewrite Hs. cbn.
    destruct (N.eqb_spec (q_pending w) 0); cbn; exists i; cbn; auto 10.
  - eexists. cbn. split; [reflexivity|]. cbn. auto 10.
  - exists i. auto 10.
Qed.

Lemma wait_draining fuel :
  forall w w', draining w -> wait fuel w = Some w' ->
    q_pending w' = 0 /\ q_pc w' = QExited /\ (q_runs w <= q_runs w')%nat
    /\ exists i, q_info w' = Some i.
Proof.
  induction fuel as [|fuel IH]; intros w w' Hd; cbn;
    pose proof Hd as (i & Hi & Hs & H); rewrite Hi.
  - destruct (compl i) eqn:Hc; [|intros [=]]. intros [= <-].
    destruct H as [(Hc' & _)|(_ & Hpc & Hp)]; [congruence|].
    repeat split; eauto; lia.
  - destruct (compl i) eqn:Hc.
    + intros [= <-].
      destruct H as [(Hc' & _)|(_ & Hpc & Hp)]; [congruence|].
      repeat split; eauto; lia.
    + intros Hw. apply IH in Hw; [|apply draining_step; exact Hd].
      destruct Hw as (A & B & C & D). repeat split; auto.
      assert (q_runs w <= q_runs (step w))%nat; [|lia].
      unfold queue_thread_step. rewrite Hi.
      destruct (q_pc w); cbn; try lia.
      * destruct (q_priv w); cbn; lia.
      * destruct (_ || _); cbn; lia.
      * destruct (_ || _); cbn; lia.
Qed.

Lemma live_stop_draining w i :
  live w -> q_info w = Some i ->
  draining (qw_info (Some (set_stop true (set_compl false i)))
                    (qw_priv false w)).
Proof.
  intros (Hp & i' & Hi & Hs & Hc & Hpc) Hi2.
  eexists. split; [reflexivity|]. cbn. split; [reflexivity|].
  left. split; [reflexivity|]. tauto.
Qed.

Lemma stop_returns_drained fuel w w' :
  live w -> cas_stop_queue_thread ocf_queue_run fuel w = Some w' ->
  q_pending w' = 0 /\ q_pc w' = QExited /\ q_info w' = None.
Proof.
  intros Hl. pose proof Hl as (Hp & i & Hi & _).
  unfold cas_stop_queue_thread, _cas_stop_thread. rewrite Hp. cbn.
  rewrite Hi.
  destruct (wait fuel _) as [w3|] eqn:Hw; cbn; [|intros [=]].
  intros [= <-]. cbn.
  eapply wait_draining in Hw; [|apply live_stop_draining; eauto].
  tauto.
Qed.

(** ** The worker does come to its end when each run makes progress *)

Hypothesis run_progress : forall p, ocf_queue_run p = 0 \/ ocf_queue_run p < p.

Lemma wait_unfold fuel w i :
  q_info w = Some i -> compl i = false ->
  wait (S fuel) w = wait fuel (step w).
Proof. intros Hi Hc. cbn. rewrite Hi, Hc. reflexivity. Qed.

Lemma drain_from_cond (n : nat) :
  forall w i, (N.to_nat (q_pending w) <= n)%nat ->
    q_info w = Some i -> stop i = true -> compl i = false ->
    q_pc w = QCond ->
    exists fuel w', wait fuel w = Some w'.
Proof.
  induction n as [|n IH]; intros w i Hn Hi Hs Hc Hpc.
  - exists 2%nat. assert (Hp : q_pending w = 0) by lia.
    cbn. unfold queue_thread_step. rewrite Hi, Hc, Hpc, Hs, Hp. cbn.
    rewrite Hi, Hc. cbn. rewrite Hp. cbn. eauto.
  - destruct (N.eqb_spec (q_pending w) 0) as [Hp|Hp].
    + apply (IH w i); auto. lia.
    + set (w1 := step w). set (w2 := step w1). set (w3 := step w2).
      assert (H1 : w1 = qw_pc QWait w).
      { unfold w1, queue_thread_step. rewrite Hi, Hpc, Hs.
        destruct (N.eqb_spec (q_pending w) 0); [contradiction|].
        reflexivity. }
      assert (H2 : w2 = qw_pc QRun w).
      { unfold w2, queue_thread_step. rewrite H1. cbn. rewrite Hi, Hs.
        rewrite orb_true_r. reflexivity. }
      assert (H3 : w3 = qw_pc QCond (qw_runs (S (q_runs w))
                  (qw_pending (ocf_queue_run (q_pending w)) w))).
      { unfold w3, queue_thread_step. rewrite H2. cbn. rewrite Hi.
        reflexivity. }
      destruct (IH w3 i) as (fuel & w' & Hw).
      * rewrite H3. cbn.
        destruct (run_progress (q_pending w)) as [H|H]; lia.
      * rewrite H3. exact Hi.
      * exact Hs.
      * exact Hc.
      * rewrite H3. reflexivity.
      * exists (3 + fuel)%nat, w'.
        change (3 + fuel)%nat with (S (S (S fuel))).
        rewrite (wait_unfold _ w Hi Hc). fold w1.
        rewrite (@wait_unfold _ w1 i); [|rewrite H1; exact Hi|exact Hc].
        fold w2.
        rewrite (@wait_unfold _ w2 i); [|rewrite H2; exact Hi|exact Hc].
        exact Hw.
Qed.

Lemma stop_terminates w :
  live w -> exists fuel w', cas_stop_queue_thread ocf_queue_run fuel w = Some w'.
Proof.
  intros (Hp & i & Hi & Hs & Hc & Hpc).
  unfold cas_stop_queue_thread, _cas_stop_thread. rewrite Hp. cbn.
  rewrite Hi.
  set (i2 := set_stop true (set_compl false i)).
  set (w2 := qw_info (Some i2) (qw_priv false w)).
  assert (Hi2 : q_info w2 = Some i2) by reflexivity.
  assert (Hs2 : stop i2 = true) by reflexivity.
  assert (Hc2 : compl i2 = false) by reflexivity.
  assert (Hgo : exists fuel w', wait fuel w2 = Some w').
  { destruct Hpc as [H|[H|H]].
    - (* at the wait: it passes, one run, then the condition *)
      destruct (@drain_from_cond (N.to_nat (q_pending (step (step w2))))
                  (step (step w2)) i2) as (fuel & w' & Hw).
      + lia.
      + unfold queue_thread_step at 2. rewrite Hi2. cbn. rewrite H.
        rewrite orb_true_r. reflexivity.
      + exact Hs2.
      + exact Hc2.
      + unfold queue_thread_step at 2. rewrite Hi2. cbn. rewrite H.
        rewrite orb_true_r. reflexivity.
      + exists (2 + fuel)%nat, w'.
        change (2 + fuel)%nat with (S (S fuel)).
        rewrite (wait_unfold _ w2 Hi2 Hc2).
        rewrite (@wait_unfold _ (step w2) i2); auto.
        unfold queue_thread_step. rewrite Hi2. cbn. rewrite H.
        rewrite orb_true_r. reflexivity.
    - destruct (@drain_from_cond (N.to_nat (q_pending (step w2)))
                  (step w2) i2) as (fuel & w' & Hw).
      + lia.
      + unfold queue_thread_step. rewrite Hi2. cbn. rewrite H. reflexivity.
      + exact Hs2.
      + exact Hc2.
      + unfold queue_thread_step. rewrite Hi2. cbn. rewrite H. reflexivity.
      + exists (S fuel), w'. rewrite (wait_unfold _ w2 Hi2 Hc2). exact Hw.
    - apply (@drain_from_cond (N.to_nat (q_pending w2)) w2 i2); auto. }
  destruct Hgo as (fuel & w' & Hw). exists fuel. rewrite Hw. cbn. eauto.
Qed.

End QueueWorkerProps.

(** C1.  The do-while of the queue worker is left only from its
    condition, and only with the stop flag set and nothing pending; it
    is repeated exactly while the flag is clear or something is pending.
    Hence, whatever was queued, kicked and processed before the stop,
    a [cas_stop_queue_thread] that returns leaves the pending count at
    zero and the worker exited; and it does return as soon as every
    [ocf_queue_run] lowers a non-zero count. *)
Theorem queue_worker_exits_drained (ocf_queue_run : N -> N) :
  (forall w,
     Threads.q_pc (Threads.queue_thread_step ocf_queue_run w) = Threads.QWarn
     <-> (Threads.q_pc w = Threads.QCond /\
          exists i, Threads.q_info w = Some i /\
                    Threads.stop i = true /\ Threads.q_pending w = 0%N)) /\
  (forall w i,
     Threads.q_pc w = Threads.QCond -> Threads.q_info w = Some i ->
     (Threads.q_pc (Threads.queue_thread_step ocf_queue_run w) = Threads.QWait
      <-> (Threads.stop i = false \/ (0 < Threads.q_pending w)%N))) /\
  (forall o cf p0 w0 pattern fuel w',
     Threads.cas_create_queue_thread ocf_queue_run o cf (Threads.new_queue p0)
       = Some (0%Z, w0) ->
     Threads.cas_stop_queue_thread ocf_queue_run fuel
       (Threads.run_pattern ocf_queue_run pattern w0) = Some w' ->
     Threads.q_pending w' = 0%N /\ Threads.q_pc w' = Threads.QExited) /\
  ((forall p, ocf_queue_run p = 0%N \/ (ocf_queue_run p < p)%N) ->
   forall o cf p0 w0 pattern,
     Threads.cas_create_queue_thread ocf_queue_run o cf (Threads.new_queue p0)
       = Some (0%Z, w0) ->
     exists fuel w',
       Threads.cas_stop_queue_thread ocf_queue_run fuel
         (Threads.run_pattern ocf_queue_run pattern w0) = Some w').
Proof.
  split; [apply loop_exit_iff|]. split; [|split].
  - intros w i Hpc Hi. unfold Threads.queue_thread_step.
    rewrite Hi, Hpc. destruct (Threads.stop i); cbn.
    + destruct (N.eqb_spec (Threads.q_pending w) 0) as [Hp|Hp]; cbn.
      * split; [intros [=]|]. intros [H|H]; [congruence|lia].
      * split; [|reflexivity]. intros _. right. lia.
    + split; auto.
  - intros o cf p0 w0 pattern fuel w' Hc Hs.
    apply live_started in Hc.
    apply (live_run_pattern ocf_queue_run pattern) in Hc.
    destruct (stop_returns_drained _ _ Hc Hs) as (A & B & _). auto.
  - intros Hrun o cf p0 w0 pattern Hc.
    apply stop_terminates; [exact Hrun|].
    apply live_run_pattern. eapply live_started. exact Hc.
Qed.

(** A worker started on three pending requests, one more queued while
    it runs: every run empties the queue. *)
Lemma queue_worker_exits_drained_witness :
  let run := fun _ : N => 0%N in
  let w0 := Threads.run_pattern run
              [Threads.EvThread; Threads.EvEnqueue; Threads.EvKick]
              (Threads.qw_pc Threads.QWait
                 (Threads.qw_priv true
                    (Threads.qw_info
                       (Some (Threads.set_compl true Threads.fresh_info))
                       (Threads.new_queue 3)))) in
  (exists w', Threads.cas_stop_queue_thread run 4 w0 = Some w' /\
              Threads.q_pending w' = 0%N) /\
  (exists fuel w', Threads.cas_stop_queue_thread run fuel w0 = Some w').
Proof.
  cbv zeta.
  pose proof (queue_worker_exits_drained (fun _ : N => 0%N)) as (_ & _ & H3 & H4).
  split.
  - eexists. split; [vm_compute; reflexivity|].
    refine (proj1 (H3 (Threads.mk_co true None) 1%nat 3%N _
                      [Threads.EvThread; Threads.EvEnqueue; Threads.EvKick]
                      4%nat _ _ _)).
    + vm_compute. reflexivity.
    + vm_compute. reflexivity.
  - refine (H4 _ (Threads.mk_co true None) 1%nat 3%N _
               [Threads.EvThread; Threads.EvEnqueue; Threads.EvKick] _).
    + intros p. left. reflexivity.
    + vm_compute. reflexivity.
Defined.

Section CleanerProps.

Import Threads.

(** No kick and no stop reaches the cleaner during this turn. *)
Definition quiet (o : iter_oracle) : Prop :=
  it_during_pass o = [] /\ Forall (fun e => e = None) (it_during_wait o).

(** The first wake-up reaches the sleeping cleaner after [k] jiffies. *)
Definition first_wake (o : iter_oracle) (k : nat) (e : wake_ev) : Prop :=
  it_during_pass o = [] /\
  exists rest, it_during_wait o = repeat None k ++ Some e :: rest.

Lemma woken_apply_wake i e : woken (apply_wake i e) = true.
Proof. destruct e; unfold woken; cbn; auto using orb_true_r. Qed.

Lemma wait_forever_woken ticks :
  forall i i' n, wait_event_interruptible ticks i = Some (i', n) ->
                 woken i' = true /\ (n <= length ticks)%nat.
Proof.
  induction ticks as [|e ticks IH]; intros i i' n; cbn;
    destruct (woken i) eqn:Hw.
  - intros [= <- <-]. auto.
  - intros [=].
  - intros [= <- <-]. split; [auto|lia].
  - destruct (wait_event_interruptible ticks (apply_tick i e))
      as [[i2 n2]|] eqn:Hr; [|intros [=]].
    intros [= <- <-]. apply IH in Hr. split; [tauto|lia].
Qed.

Lemma wait_forever_quiet ticks :
  forall i, woken i = false -> Forall (fun e => e = None) ticks ->
            wait_event_interruptible ticks i = None.
Proof.
  induction ticks as [|e ticks IH]; intros i Hw Hq; cbn; rewrite Hw.
  - reflexivity.
  - inversion Hq as [|? ? He Hq']; subst. cbn. rewrite IH; auto.
Qed.

Lemma wait_forever_first_wake k :
  forall i e rest, woken i = false ->
    wait_event_interruptible (repeat None k ++ Some e :: rest) i
      = Some (apply_wake i e, S k).
Proof.
  induction k as [|k IH]; intros i e rest Hw; cbn; rewrite Hw.
  - destruct rest; cbn; rewrite woken_apply_wake; reflexivity.
  - rewrite IH by exact Hw. reflexivity.
Qed.

Lemma wait_timeout_bound timeout :
  forall ticks i i' n,
    wait_event_interruptible_timeout ticks timeout i = (i', n) ->
    (n <= timeout)%nat /\ (woken i' = true \/ n = timeout).
Proof.
  induction timeout as [|t IH]; intros ticks i i' n; cbn;
    destruct (woken i) eqn:Hw.
  - intros [= <- <-]. auto.
  - intros [= <- <-]. auto.
  - intros [= <- <-]. split; [lia|auto].
  - destruct (wait_event_interruptible_timeout (tl ticks) t
                (apply_tick i (hd None ticks))) as [i2 n2] eqn:Hr.
    intros [= <- <-]. apply IH in Hr. split; [lia|].
    destruct Hr as (_ & [H|H]); [auto|right; lia].
Qed.

Lemma wait_timeout_quiet timeout :
  forall ticks i, woken i = false -> Forall (fun e => e = None) ticks ->
    wait_event_interruptible_timeout ticks timeout i = (i, timeout).
Proof.
  induction timeout as [|t IH]; intros ticks i Hw Hq; cbn; rewrite Hw.
  - reflexivity.
  - destruct ticks as [|e ticks]; cbn.
    + rewrite IH; auto.
    + inversion Hq as [|? ? He Hq']; subst. cbn. rewrite IH; auto.
Qed.

Lemma wait_timeout_first_wake k :
  forall timeout i e rest, woken i = false -> (k < timeout)%nat ->
    wait_event_interruptible_timeout
      (repeat None k ++ Some e :: rest) timeout i
      = (apply_wake i e, S k).
Proof.
  induction k as [|k IH]; intros timeout i e rest Hw Hk;
    (destruct timeout as [|t]; [lia|]); cbn; rewrite Hw.
  - destruct t; cbn; rewrite woken_apply_wake; reflexivity.
  - rewrite IH; [reflexivity|exact Hw|lia].
Qed.

End CleanerProps.

(** C5.  One turn of the cleaner loop.  With the stop flag set the turn
    breaks out at once and nothing is run.  Otherwise the kicked flag is
    cleared and one pass is run on the queue the fastest-queue selection
    returns; then, if the callback delivered the disabled sentinel, the
    cleaner sleeps without any timeout, so that it stays blocked as long
    as no kick and no stop arrives and is awake exactly when the first
    of them does; for any other interval it sleeps at most the interval
    converted to jiffies, the whole of it when nothing arrives, and only
    until the first kick or stop when one arrives earlier. *)
Theorem cleaner_iteration_schedule
        (OCF_CLEANER_DISABLE : N) (msecs_to_jiffies : N -> nat)
        (o : Threads.iter_oracle) (w : Threads.cleaner_world) :
  let iter := Threads.cleaner_iteration OCF_CLEANER_DISABLE
                                        msecs_to_jiffies o w in
  let timeout := msecs_to_jiffies (Threads.it_interval o) in
  (Threads.stop (Threads.c_info w) = true -> iter = Threads.IterBreak w) /\
  (Threads.stop (Threads.c_info w) = false ->
   forall s,
     Threads.cache_get_fastest_porter_queue (Threads.c_queues w) = Some s ->
     (Threads.it_interval o = OCF_CLEANER_DISABLE ->
        (forall w', iter = Threads.IterNext w' ->
           Threads.woken (Threads.c_info w') = true /\
           exists n, Threads.c_trace w' =
                     Threads.c_trace w ++
                       [Threads.ObsRun (Threads.sel_index s);
                        Threads.ObsSlept Threads.WaitForever n]) /\
        (quiet o ->
           exists w', iter = Threads.IterBlocked w' /\
                      Threads.kicked (Threads.c_info w') = false /\
                      Threads.c_trace w' =
                      Threads.c_trace w ++
                        [Threads.ObsRun (Threads.sel_index s)]) /\
        (forall k e, first_wake o k e ->
           exists w', iter = Threads.IterNext w' /\
                      Threads.c_trace w' =
                      Threads.c_trace w ++
                        [Threads.ObsRun (Threads.sel_index s);
                         Threads.ObsSlept Threads.WaitForever (S k)])) /\
     (Threads.it_interval o <> OCF_CLEANER_DISABLE ->
        (exists w' n,
           iter = Threads.IterNext w' /\
           Threads.c_trace w' =
             Threads.c_trace w ++
               [Threads.ObsRun (Threads.sel_index s);
                Threads.ObsSlept (Threads.WaitTimeout timeout) n] /\
           (n <= timeout)%nat /\
           (Threads.woken (Threads.c_info w') = true \/ n = timeout) /\
           (quiet o ->
              n = timeout /\ Threads.kicked (Threads.c_info w') = false) /\
           (forall k e, first_wake o k e -> (k < timeout)%nat ->
              n = S k)))).
Proof.
  cbv zeta. unfold Threads.cleaner_iteration. split.
  - intros ->. reflexivity.
  - intros Hstop s Hs. rewrite Hstop, Hs. cbn [Threads.sync_data
      Threads._cas_cleaner_complete Threads.set_sync_compl
      Threads.set_sync_data].
    set (info0 := Threads.set_sync_compl false
                    (Threads.set_kicked false (Threads.c_info w))).
    assert (Hw0 : Threads.woken info0 = false).
    { unfold Threads.woken, info0. cbn. exact Hstop. }
    split.
    + intros ->. rewrite N.eqb_refl. split; [|split].
      * intros w'.
        destruct (Threads.wait_event_interruptible _ _)
          as [[i' n]|] eqn:Hr; [|intros [=]].
        intros [= <-]. cbn. apply wait_forever_woken in Hr.
        split; [tauto|eauto].
      * intros (Hp & Hq). rewrite Hp. cbn [fold_left].
        rewrite wait_forever_quiet; [| exact Hw0 | exact Hq].
        eexists. split; [reflexivity|]. cbn. auto.
      * intros k e (Hp & rest & Hq). rewrite Hp, Hq. cbn [fold_left].
        rewrite wait_forever_first_wake by exact Hw0.
        eexists. split; reflexivity.
    + intros Hne. apply N.eqb_neq in Hne. rewrite Hne.
      destruct (Threads.wait_event_interruptible_timeout _ _ _)
        as [i' n] eqn:Hr.
      exists (Threads.mk_cw i' (Threads.c_queues w)
                (Threads.c_trace w ++
                 [Threads.ObsRun (Threads.sel_index s);
                  Threads.ObsSlept
                    (Threads.WaitTimeout
                       (msecs_to_jiffies (Threads.it_interval o))) n])), n.
      split; [reflexivity|]. split; [reflexivity|]. cbn [Threads.c_info].
      pose proof (wait_timeout_bound _ _ _ Hr) as (Hb & Hwk).
      split; [exact Hb|]. split; [exact Hwk|]. split.
      * intros (Hp & Hq). rewrite Hp in Hr. cbn [fold_left] in Hr.
        rewrite wait_timeout_quiet in Hr; [| exact Hw0 | exact Hq].
        injection Hr as <- <-. split; reflexivity.
      * intros k e (Hp & rest & Hq) Hk. rewrite Hp, Hq in Hr.
        cbn [fold_left] in Hr.
        rewrite wait_timeout_first_wake in Hr; [| exact Hw0 | exact Hk].
        injection Hr as _ <-. reflexivity.
Qed.

(** A cleaner on four queues with 5, 3, 3 and 8 requests pending, told
    to come back after 250 ms, with nobody kicking or stopping it. *)
Lemma cleaner_iteration_schedule_witness :
  let o := Threads.mk_io 250 [] [] in
  let w := Threads.mk_cw (Threads.set_kicked true Threads.fresh_info)
                         [5; 3; 3; 8]%N [] in
  exists w' n,
    Threads.cleaner_iteration 4294967295 N.to_nat o w = Threads.IterNext w' /\
    Threads.c_trace w' =
      [Threads.ObsRun 1;
       Threads.ObsSlept (Threads.WaitTimeout 250) n] /\
    n = 250%nat /\ Threads.kicked (Threads.c_info w') = false.
Proof.
  cbv zeta.
  destruct (cleaner_iteration_schedule 4294967295 N.to_nat
              (Threads.mk_io 250 [] [])
              (Threads.mk_cw (Threads.set_kicked true Threads.fresh_info)
                             [5; 3; 3; 8]%N [])) as (_ & H).
  specialize (H eq_refl (Threads.mk_sel 1 4) eq_refl).
  destruct H as (_ & H).
  assert (Hne : Threads.it_interval (Threads.mk_io 250 [] [])
                <> 4294967295%N) by (cbn; lia).
  destruct (H Hne) as (w' & n & A & B & _ & _ & C & _).
  assert (Hq : quiet (Threads.mk_io 250 [] [])) by (split; constructor).
  destruct (C Hq) as (C1 & C2).
  exists w', n. split; [exact A|]. split; [|split; assumption].
  rewrite B. subst n. reflexivity.
Defined.

(* ================================================================== *)
(** * Properties of exp_obj.c                                           *)
(* ================================================================== *)

Section OpenLock.

Import Errno ExpObj.
Local Open Scope Z_scope.

Lemma open_unfold d l :
  _cas_exp_obj_open (mk_world d l) =
  if claimed d then Ret (- ENAVAIL) (mk_world d l)
  else if openers d =? UINT_MAX then Ret (- EBUSY) (mk_world d l)
       else Ret 0 (mk_world
                     (d_set_openers ((openers d + 1) mod 2 ^ 32) d) l).
Proof.
  unfold _cas_exp_obj_open, bind, get_dsk, modify_dsk, ret.
  cbn [dsk log]. destruct (claimed d); [reflexivity|]. cbn [negb].
  destruct (openers d =? UINT_MAX); reflexivity.
Qed.

(** C6.  On an exported device, [cas_exp_obj_lock] returns [-EBUSY],
    changing nothing, exactly when the opener count is not zero, and
    returns 0 with the claimed flag set when it is zero.  While the flag
    is set an open is refused and leaves the disk as it was, so the next
    one is refused too; [cas_exp_obj_unlock] clears the flag, after
    which an open is accepted again. *)
Theorem lock_busy_iff_openers (w : world) :
  is_some (exp_obj (dsk w)) = true ->
  (openers (dsk w) <> 0 -> cas_exp_obj_lock w = Ret (- EBUSY) w) /\
  (openers (dsk w) = 0 ->
     cas_exp_obj_lock w
       = Ret 0 (mk_world (d_set_claimed true (dsk w)) (log w))) /\
  (forall r w', cas_exp_obj_lock w = Ret r w' ->
     (r = - EBUSY <-> openers (dsk w) <> 0) /\
     (r = 0 <-> openers (dsk w) = 0) /\
     (r = 0 -> claimed (dsk w') = true)) /\
  (claimed (dsk w) = true -> _cas_exp_obj_open w = Ret (- ENAVAIL) w) /\
  (exists w', cas_exp_obj_unlock w = Ret 0 w' /\
     claimed (dsk w') = false /\ openers (dsk w') = openers (dsk w) /\
     (openers (dsk w) <> UINT_MAX ->
        exists w'', _cas_exp_obj_open w' = Ret 0 w'')).
Proof.
  intros Hobj. destruct w as [d l]. cbn [dsk log] in *.
  assert (Hlock : cas_exp_obj_lock (mk_world d l) =
                  if openers d =? 0
                  then Ret 0 (mk_world (d_set_claimed true d) l)
                  else Ret (- EBUSY) (mk_world d l)).
  { unfold cas_exp_obj_lock, bind, get_dsk, BUG_ON, modify_dsk, ret.
    cbn. rewrite Hobj. cbn. destruct (openers d =? 0); reflexivity. }
  split; [|split; [|split; [|split]]].
  - intros H. rewrite Hlock. apply Z.eqb_neq in H. rewrite H. reflexivity.
  - intros H. rewrite Hlock, H. reflexivity.
  - intros r w'. rewrite Hlock.
    destruct (Z.eqb_spec (openers d) 0) as [Hz|Hnz];
      intros [= <- <-]; unfold EBUSY; cbn.
    + split; [split; [discriminate|congruence]|].
      split; [split; auto|auto].
    + split; [split; auto|]. split; [split; [discriminate|congruence]|].
      discriminate.
  - intros Hc. rewrite open_unfold, Hc. reflexivity.
  - exists (mk_world (d_set_claimed false d) l).
    split; [reflexivity|]. cbn [dsk].
    split; [reflexivity|]. split; [reflexivity|].
    intros Hm. rewrite open_unfold. cbn [claimed d_set_claimed openers].
    apply Z.eqb_neq in Hm. rewrite Hm. eauto.
Qed.

(** C9.  An open of an unclaimed device whose opener count is already
    [UINT_MAX] returns [-EBUSY] and changes nothing; an open of a
    claimed device returns [-ENAVAIL] and changes nothing; and no open
    takes a count within the range of [unsigned] out of it or wraps it:
    the count stays or grows by exactly one. *)
Theorem open_never_overflows (w : world) :
  (claimed (dsk w) = false -> openers (dsk w) = UINT_MAX ->
     _cas_exp_obj_open w = Ret (- EBUSY) w) /\
  (claimed (dsk w) = true ->
     _cas_exp_obj_open w = Ret (- ENAVAIL) w) /\
  (0 <= openers (dsk w) <= UINT_MAX ->
     exists r w', _cas_exp_obj_open w = Ret r w' /\
       0 <= openers (dsk w') <= UINT_MAX /\
       ((r = 0 /\ openers (dsk w') = openers (dsk w) + 1) \/
        (r <> 0 /\ w' = w))).
Proof.
  destruct w as [d l]. cbn [dsk log].
  rewrite open_unfold.
  split; [|split].
  - intros -> ->. reflexivity.
  - intros ->. reflexivity.
  - intros Hr. destruct (claimed d).
    + eexists _, _. split; [reflexivity|]. cbn. split; [exact Hr|].
      right. split; [discriminate|reflexivity].
    + destruct (Z.eqb_spec (openers d) UINT_MAX) as [He|Hne].
      * eexists _, _. split; [reflexivity|]. cbn. split; [exact Hr|].
        right. split; [discriminate|reflexivity].
      * eexists _, _. split; [reflexivity|]. cbn.
        unfold UINT_MAX in *.
        rewrite Z.mod_small by lia. split; [lia|]. left. auto.
Qed.

End OpenLock.

(** A device with two openers refuses the lock; one with none grants
    it. *)
Lemma lock_busy_iff_openers_witness :
  let d := ExpObj.d_set_exp_obj (Some ExpObj.zeroed_exp_obj)
             (ExpObj.fresh_disk "/dev/sda" true ExpObj.zeroed_gendisk) in
  ExpObj.cas_exp_obj_lock
    (ExpObj.mk_world (ExpObj.d_set_openers 2 d) [])
    = ExpObj.Ret (- Errno.EBUSY)%Z
        (ExpObj.mk_world (ExpObj.d_set_openers 2 d) []) /\
  ExpObj.cas_exp_obj_lock (ExpObj.mk_world d [])
    = ExpObj.Ret 0%Z
        (ExpObj.mk_world (ExpObj.d_set_claimed true d) []).
Proof.
  cbv zeta. split.
  - refine (proj1 (@lock_busy_iff_openers _ _) _).
    + reflexivity.
    + cbn. lia.
  - refine (proj1 (proj2 (@lock_busy_iff_openers _ _)) _).
    + reflexivity.
    + reflexivity.
Defined.

(** A device opened [UINT_MAX] times refuses one more open. *)
Lemma open_never_overflows_witness :
  let w := ExpObj.mk_world
             (ExpObj.d_set_openers ExpObj.UINT_MAX
                (ExpObj.fresh_disk "/dev/sda" true ExpObj.zeroed_gendisk))
             [] in
  ExpObj._cas_exp_obj_open w = ExpObj.Ret (- Errno.EBUSY)%Z w.
Proof.
  cbv zeta.
  refine (proj1 (@open_never_overflows _) _ _); reflexivity.
Defined.

Section ExpObjProps.

Import Errno ExpObj.
Local Open Scope Z_scope.

Lemma filter_map_app {A B} (f : A -> option B) (l1 l2 : list A) :
  filter_map f (l1 ++ l2) = filter_map f l1 ++ filter_map f l2.
Proof.
  induction l1 as [|a l1 IH]; cbn; [reflexivity|].
  destruct (f a); cbn; rewrite IH; reflexivity.
Qed.

(** The failed [set_geometry] calls a log holds. *)
Definition geometry_failure (a : action) : option Z :=
  match a with
  | A_set_geometry g => if g =? 0 then None else Some g
  | _ => None
  end.

(** A piece of log in which nothing is acquired, nothing released, and
    no [set_geometry] fails. *)
Definition neutral (l : list action) : Prop :=
  acquired l = [] /\ released l = [] /\ filter_map geometry_failure l = [].

Lemma neutral_nil : neutral [].
Proof. repeat split. Qed.

Lemma neutral_app l1 l2 : neutral l1 -> neutral l2 -> neutral (l1 ++ l2).
Proof.
  unfold neutral, acquired, released. intros (A1 & B1 & C1) (A2 & B2 & C2).
  rewrite !filter_map_app, A1, A2, B1, B2, C1, C2. auto.
Qed.

(** The log and the result of the partition loop. *)
Fixpoint loop_log (parts : list (Z * Z * Z)) : list action :=
  match parts with
  | [] => []
  | (part_no, copied, ioctl) :: rest =>
      if part_no =? 0 then []
      else A_copy_to_user copied ::
           (if negb (copied =? 0) then []
            else A_ioctl_blkpg part_no ioctl ::
                 (if ioctl =? 0 then loop_log rest else []))
  end.

Fixpoint loop_result (parts : list (Z * Z * Z)) : Z :=
  match parts with
  | [] => 0
  | (part_no, copied, ioctl) :: rest =>
      if part_no =? 0 then 0
      else if negb (copied =? 0) then - EINVAL
           else if ioctl =? 0 then loop_result rest else ioctl
  end.

Lemma del_partitions_loop_eq parts :
  forall d l,
    del_partitions_loop parts (mk_world d l)
    = Ret (loop_result parts) (mk_world d (l ++ loop_log parts)).
Proof.
  induction parts as [|[[p c] i] rest IH]; intros d l; cbn.
  - rewrite app_nil_r. reflexivity.
  - destruct (p =? 0); cbn; [rewrite app_nil_r; reflexivity|].
    unfold bind, call, ret. cbn.
    destruct (c =? 0); cbn; [|reflexivity].
    destruct (i =? 0); cbn.
    + rewrite IH. rewrite <- !app_assoc. reflexivity.
    + rewrite <- !app_assoc. reflexivity.
Qed.

Lemma loop_log_neutral parts : neutral (loop_log parts).
Proof.
  induction parts as [|[[p c] i] rest IH]; cbn; [apply neutral_nil|].
  destruct (p =? 0); [apply neutral_nil|].
  destruct (c =? 0); cbn; [|repeat split].
  destruct (i =? 0); [|repeat split].
  destruct IH as (A & B & C). repeat split; cbn; assumption.
Qed.


Lemma neutral_cons a l :
  acquire_of a = None -> release_of a = None ->
  geometry_failure a = None -> neutral l -> neutral (a :: l).
Proof.
  unfold neutral, acquired, released. intros A B C (A' & B' & C').
  cbn. rewrite A, B, C. auto.
Qed.

Ltac solve_neutral :=
  repeat first
    [ apply neutral_nil
    | apply loop_log_neutral
    | apply neutral_cons; [reflexivity | reflexivity | reflexivity |]
    | apply neutral_app ].

Lemma del_partitions_spec k d l :
  exists r lt,
    _cas_del_partitions k (mk_world d l) = Ret r (mk_world d (l ++ lt)) /\
    neutral lt.
Proof.
  unfold _cas_del_partitions, bind, get_dsk, call, ret. cbn [dsk log].
  destruct (filp_open_bdev_err k);
    [eexists _, _; split; [reflexivity|solve_neutral]|].
  destruct (vm_mmap_bpart_err k);
    [eexists _, _; split;
       [cbn [dsk log]; rewrite <- ?app_assoc; reflexivity|cbn; solve_neutral]|].
  destruct (vm_mmap_barg_err k);
    [eexists _, _; split;
       [cbn [dsk log]; rewrite <- ?app_assoc; reflexivity|cbn; solve_neutral]|].
  destruct (copy_to_user_barg k =? 0) eqn:Hc; cbn [negb].
  - rewrite del_partitions_loop_eq. cbn [dsk log].
    eexists _, _. split; [cbn [dsk log]; rewrite <- ?app_assoc; reflexivity|].
    cbn. solve_neutral.
  - eexists _, _. split; [cbn [dsk log]; rewrite <- ?app_assoc; reflexivity|].
    cbn. solve_neutral.
Qed.

Lemma restore_flags f c : Z.lor (Z.land f (Z.lnot c)) (Z.land f c) = f.
Proof.
  apply Z.bits_inj'. intros n Hn.
  rewrite Z.lor_spec, !Z.land_spec, Z.lnot_spec by exact Hn.
  destruct (Z.testbit f n), (Z.testbit c n); reflexivity.
Qed.

(** The bottom disk once its partitions are hidden. *)
Definition hidden (k : kernel) (d : cas_disk) : cas_disk :=
  d_set_bd_disk
    (gd_set_minors 1
       (gd_set_flags (Z.land (g_flags (bd_disk d)) (Z.lnot (_cas_flags k)))
          (bd_disk d)))
    (d_set_gd_minors (g_minors (bd_disk d))
       (d_set_gd_flags (Z.land (g_flags (bd_disk d)) (_cas_flags k)) d)).

Lemma hide_parts_spec k d l :
  exists r d' lt,
    _cas_exp_obj_hide_parts k (mk_world d l)
      = Ret r (mk_world d' (l ++ lt)) /\
    neutral lt /\
    ((r = 0 /\ bd_whole d = false /\ d' = d) \/
     (r = - EINVAL /\ bd_whole d = true /\ d' = d) \/
     (r = 0 /\ bd_whole d = true /\ d' = hidden k d)).
Proof.
  unfold _cas_exp_obj_hide_parts. unfold bind at 1. unfold get_dsk at 1.
  cbn [dsk log].
  destruct (bd_whole d) eqn:Hw; cbn [negb].
  2:{ exists 0, d, []. rewrite app_nil_r. repeat split. auto. }
  unfold bind at 1.
  assert (Hdel : exists r lt,
    (if disk_max_parts k (bd_disk d) >? 1
     then _cas_del_partitions k else ret 0) (mk_world d l)
    = Ret r (mk_world d (l ++ lt)) /\ neutral lt).
  { destruct (disk_max_parts k (bd_disk d) >? 1).
    - apply del_partitions_spec.
    - exists 0, []. rewrite app_nil_r. split; [reflexivity|solve_neutral]. }
  destruct Hdel as (r & lt & -> & Hn).
  destruct (r =? 0) eqn:Hr; cbn [negb].
  - unfold bind, modify_dsk, call, ret. cbn [dsk log].
    eexists _, _, _. split; [cbn [dsk log]; rewrite <- ?app_assoc; reflexivity|].
    split; [solve_neutral; exact Hn|]. right. right. auto.
  - unfold bind, call, ret. cbn [dsk log].
    eexists _, _, _. split; [cbn [dsk log]; rewrite <- ?app_assoc; reflexivity|].
    split; [solve_neutral; exact Hn|]. right. left. auto.
Qed.


Lemma set_dev_t_spec k d l o g :
  exp_obj d = Some o -> gd o = Some g ->
  exists r g' d1 lt,
    _cas_exp_obj_set_dev_t k (mk_world d l)
      = Ret r (mk_world (d_set_exp_obj (Some (eo_set_gd (Some g') o)) d1)
                        (l ++ lt)) /\
    neutral lt /\
    (d1 = d \/ (bd_whole d = true /\ d1 = hidden k d)) /\
    (r = 0 -> bd_whole d = true -> d1 = hidden k d).
Proof.
  intros Ho Hg. destruct d, o; cbn in Ho, Hg; subst.
  match goal with |- context [mk_world ?d l] => set (d0 := d) end.
  unfold _cas_exp_obj_set_dev_t. unfold bind at 1. unfold get_dsk at 1.
  cbn [dsk log]. unfold bind at 1.
  destruct (bd_whole d0) eqn:Hw; cbn [negb].
  - unfold bind at 1.
    destruct (hide_parts_spec k d0 l) as (r & d' & lt & -> & Hn & Hcase).
    destruct Hcase as [(_ & Hf & _)|[(-> & _ & ->)|(-> & _ & ->)]];
      [congruence| |].
    + cbn. unfold ret.
      exists (- EINVAL), g, d0, lt.
      split; [reflexivity|]. split; [exact Hn|]. split; [auto|].
      discriminate.
    + cbn [Z.eqb negb].
      destruct (cas_disk_allocate_minors_res k <? 0) eqn:Hm;
        eexists _, _, (hidden k d0), _;
        unfold bind, get_dsk, ret, call, modify_gd,
          get_exp_obj, modify_exp_obj, modify_dsk;
        cbn; rewrite ?Hm;
        (split; [rewrite <- ?app_assoc; reflexivity|]);
        (split; [solve_neutral; exact Hn|]); (split; [right; auto|auto]).
  - destruct (cas_disk_allocate_minors_res k <? 0) eqn:Hm;
      eexists _, _, d0, _;
      unfold bind, get_dsk, ret, call, modify_gd,
        get_exp_obj, modify_exp_obj, modify_dsk;
      cbn; rewrite ?Hm;
      (split; [reflexivity|]);
      (split; [solve_neutral|]); (split; [left; reflexivity|]);
      intros _ H; cbn in Hw; congruence.
Qed.


(** What [cas_exp_obj_create] leaves behind, for every behaviour of the
    kernel. *)
Definition create_post (k : kernel) (name : string) (d : cas_disk)
           (r : Z) (d' : cas_disk) (lt : list action) : Prop :=
  ((DISK_NAME_LEN k <= String.length name)%nat ->
     r = - EINVAL /\ lt = [] /\ d' = d) /\
  ((String.length name < DISK_NAME_LEN k)%nat ->
     exists lt', lt = A_kmem_cache_zalloc (kmem_cache_zalloc_ok k) :: lt') /\
  (r <> 0 ->
     released lt = kobject_unwind (acquired lt) /\
     (filter_map geometry_failure lt <> [] ->
        private d' = NULL /\ bd_disk d' = bd_disk d) /\
     (~ In RKobj (acquired lt) -> d' = d) /\
     (In RKobj (acquired lt) ->
        exists o, exp_obj d' = Some o /\ freed o = true)) /\
  (r = 0 ->
     released lt = [] /\
     exists o g, exp_obj d' = Some o /\ gd o = Some g /\
       activated o = false /\ freed o = false /\ kref o = 1%nat /\
       dev_name o = Some name).

Ltac run1 :=
  cbv beta iota zeta delta
    [cas_exp_obj_create cas_exp_obj_alloc __cas_exp_obj_release
     kfree_dev_name _cas_exp_obj_release kobject_put
     _cas_exp_obj_init_kobject _cas_init_tag_set cas_alloc_mq_disk
     _cas_exp_obj_clear_dev_t error_exp_obj_alloc error_kstrdup
     error_module_get error_init_kobject error_init_tag_set
     error_alloc_mq_disk error_exp_obj_set_dev_t error_set_geometry
     cas_exp_obj_activate _cas_exp_obj_exists error_bd_claim
     error_sysfs_link cas_exp_obj_destroy cas_exp_obj_free
     bind ret call BUG_ON get_dsk modify_dsk get_exp_obj modify_exp_obj
     modify_gd is_some negb option_map zeroed_exp_obj zeroed_gendisk
     dsk log exp_obj private openers claimed gd_flags gd_minors path
     bd_whole bd_disk tag_set dev_name owner ops gd queue activated kref
     freed g_flags g_minors g_first_minor g_major g_disk_name g_fops
     g_private_data queuedata make_request_fn set_geometry
     d_set_exp_obj d_set_private d_set_openers d_set_claimed
     d_set_gd_flags d_set_gd_minors d_set_bd_disk d_set_tag_set
     eo_set_dev_name eo_set_owner eo_set_ops eo_set_gd eo_set_queue
     eo_set_activated eo_set_kref eo_set_freed
     gd_set_flags gd_set_minors gd_set_first_minor gd_set_major
     gd_set_disk_name gd_set_fops gd_set_private_data hidden].

Ltac run :=
  repeat progress
    (run1; cbn [Z.eqb Z.opp ENOMEM EINVAL ENAVAIL EEXIST ENODEV EBUSY];
     repeat match goal with
            | H : ?c = _ |- context [if ?c then _ else _] => rewrite H
            end).

Ltac leaf :=
  run;
  eexists _, _, _; split; [rewrite <- ?app_assoc; reflexivity|].

Ltac post :=
  unfold acquired, released; rewrite ?filter_map_app;
  repeat match goal with
         | H : neutral _ |- _ =>
             let A := fresh in let B := fresh in let C := fresh in
             destruct H as (A & B & C);
             unfold acquired, released in A, B;
             rewrite ?A, ?B, ?C
         end;
  cbn [filter_map acquire_of release_of geometry_failure app];
  repeat match goal with
         | H : (_ =? _) = _ |- _ => rewrite H
         end;
  repeat match goal with
         | H : (_ =? _) = false |- _ => apply Z.eqb_neq in H
         | H : (_ =? _) = true |- _ => apply Z.eqb_eq in H
         | H : (_ <? _) = false |- _ => apply Z.ltb_ge in H
         | H : (_ <? _) = true |- _ => apply Z.ltb_lt in H
         end;
  cbn [filter_map acquire_of release_of geometry_failure app
       kobject_unwind rev In];
  repeat split; intros;
  try lia; try discriminate; try congruence; try tauto;
  try (exfalso; intuition congruence);
  eauto 10.

Lemma create_spec k name own ops_ priv d l :
  own <> NULL -> is_some ops_ = true -> exp_obj d = None ->
  exists r d' lt,
    cas_exp_obj_create k name own ops_ priv (mk_world d l)
      = Ret r (mk_world d' (l ++ lt)) /\
    create_post k name d r d' lt.
Proof.
  intros Hown Hops Hobj.
  destruct d; cbn in Hobj; subst.
  destruct ops_ as [[geom]|]; [clear Hops|discriminate].
  apply Z.eqb_neq in Hown.
  unfold create_post. run.
  destruct (Nat.leb_spec (DISK_NAME_LEN k) (String.length name)) as [Hl|Hl].
  { eexists _, _, []. rewrite app_nil_r. split; [reflexivity|]. post. }
  destruct (kmem_cache_zalloc_ok k) eqn:Hz; [|leaf; post].
  run. destruct (kstrdup_ok k) eqn:Hk; [|leaf; post].
  run. destruct (try_module_get_ok k) eqn:Hm; [|leaf; post].
  run. destruct (kobject_add_res k =? 0) eqn:Hko; [|leaf; post].
  run. destruct (blk_mq_alloc_tag_set_res k =? 0) eqn:Hts; [|leaf; post].
  run. destruct (cas_alloc_mq_disk_res k =? 0) eqn:Hmq; [|leaf; post].
  run.
  match goal with
  | |- context [_cas_exp_obj_set_dev_t k (mk_world ?d ?l)] =>
      destruct (@set_dev_t_spec k d l _ _ eq_refl eq_refl)
        as (r & g' & d1 & lt & Hsd & Hn & Hd1 & Hr0);
      rewrite Hsd; clear Hsd
  end.
  destruct (r =? 0) eqn:Hr.
  2:{ destruct Hd1 as [->|(Hw & ->)]; leaf; post. }
  destruct geom as [geom|]; [|destruct Hd1 as [->|(Hw & ->)]; leaf; post].
  destruct (geom =? 0) eqn:Hge;
    [destruct Hd1 as [->|(Hw & ->)]; leaf; post|].
  destruct bd_whole0 eqn:Hw.
  - apply Z.eqb_eq in Hr. rewrite (Hr0 Hr eq_refl). clear Hr0 Hd1.
    leaf. post.
    rewrite restore_flags. destruct bd_disk0; reflexivity.
  - destruct Hd1 as [->|(Hw' & _)]; [|discriminate].
    leaf. post.
Qed.

Lemma kobject_unwind_perm acq :
  Permutation acq (kobject_unwind acq).
Proof.
  assert (Hrev : Permutation acq (rev acq)) by apply Permutation_rev.
  unfold kobject_unwind.
  destruct acq as [|[] [|[] [|[] [|[] later]]]]; try exact Hrev.
  transitivity ([RKobj; RName; RObj; RModule] ++ rev later);
    [|apply Permutation_app_comm].
  change (RObj :: RName :: RModule :: RKobj :: later)
    with ([RObj; RName; RModule; RKobj] ++ later).
  apply Permutation_app; [|apply Permutation_rev].
  apply (Permutation_cons_app [RKobj; RName] [RModule]).
  apply (Permutation_cons_app [RKobj] [RModule]).
  apply perm_swap.
Qed.



Lemma kobject_unwind_early acq :
  ~ In RKobj acq -> kobject_unwind acq = rev acq.
Proof.
  intros Hn. unfold kobject_unwind.
  destruct acq as [|[] [|[] [|[] [|[] later]]]]; try reflexivity.
  exfalso. apply Hn. cbn. auto.
Qed.

(** What [cas_exp_obj_activate] leaves behind on a created device that
    is not yet activated. *)
Definition activate_post (k : kernel) (o : cas_exp_obj) (d : cas_disk)
           (r : Z) (d' : cas_disk) (lt : list action) : Prop :=
  let p := device_path k (dev_name o) in
  (kmalloc_path_ok k = false ->
     r = - ENOMEM /\ d' = d /\ lt = [A_kmalloc_path false]) /\
  (kmalloc_path_ok k = true -> filp_open_ok k p = true ->
     r = - EEXIST /\ d' = d /\
     lt = [A_kmalloc_path true; A_filp_open p true; A_filp_close;
           A_kfree_path]) /\
  (r <> 0 ->
     released lt = rev (acquired lt) /\ d' = d /\
     (In A_add_disk lt -> In A_del_gendisk lt)) /\
  (kmalloc_path_ok k = true -> filp_open_ok k p = false ->
   (bd_link_disk_holder_res k <> 0 \/ sysfs_create_link_res k <> 0) ->
     r <> 0 /\ In A_add_disk lt) /\
  (r = 0 ->
     d' = d_set_exp_obj (Some (eo_set_activated true o)) d /\
     acquired lt = [RRegistered; RHolder; RSymlink] /\
     released lt = []).

Lemma activate_spec k d l o g :
  exp_obj d = Some o -> gd o = Some g -> activated o = false ->
  exists r d' lt,
    cas_exp_obj_activate k (mk_world d l) = Ret r (mk_world d' (l ++ lt)) /\
    activate_post k o d r d' lt.
Proof.
  intros Ho Hg Ha. destruct d, o; cbn in Ho, Hg, Ha; subst.
  unfold activate_post. run.
  destruct (kmalloc_path_ok k) eqn:Hk; [|leaf; post].
  run.
  match goal with
  | |- context [filp_open_ok k ?p] => destruct (filp_open_ok k p) eqn:Hf
  end; [leaf; post|].
  run.
  destruct (bd_link_disk_holder_res k =? 0) eqn:Hb; [|leaf; post].
  run.
  destruct (sysfs_create_link_res k =? 0) eqn:Hs; leaf; post.
Qed.

Lemma activate_needs_fresh k w r w' :
  cas_exp_obj_activate k w = Ret r w' ->
  exists o g, exp_obj (dsk w) = Some o /\ gd o = Some g /\
              activated o = false.
Proof.
  destruct w as [[[o|] ? ? ? ? ? ? ? ? ?] l]; run; [|discriminate].
  destruct o as [? ? ? [g|] ? [|] ? ?]; run; try discriminate.
  intros _. eexists _, _. repeat split.
Qed.

Lemma activate_twice_bug k d l o :
  exp_obj d = Some o -> activated o = true ->
  cas_exp_obj_activate k (mk_world d l) = Bug (mk_world d l).
Proof.
  intros Ho Ha. destruct d, o; cbn in Ho, Ha; subst. run.
  match goal with
  | |- context [match ?g with Some _ => _ | None => _ end] => destruct g
  end; reflexivity.
Qed.

(** ** Devices and kernels for the examples *)

(** A whole disk with two partitions, as the bottom device. *)
Definition sda : gendisk := mk_gendisk 64 16 0 8 "sda" true false.

Definition sda_world : world :=
  mk_world (fresh_disk "/dev/sda" true sda) [].

(** A kernel in which nothing fails and no "/dev" entry exists. *)
Definition kernel_ok : kernel :=
  mk_kernel 32 4096 576 252 (fun g => g_minors g)
            true true true 0 0 0 None None None 0
            [(1, 0, 0); (2, 0, 0)] 16 true (fun _ => false) 0 0.

(** The same, but [blk_mq_alloc_tag_set] runs out of memory. *)
Definition kernel_no_tag_set : kernel :=
  mk_kernel 32 4096 576 252 (fun g => g_minors g)
            true true true 0 (- ENOMEM) 0 None None None 0
            [(1, 0, 0); (2, 0, 0)] 16 true (fun _ => false) 0 0.

(** The same as [kernel_ok], but the device node is already there and
    the buffer for its path cannot be allocated. *)
Definition kernel_no_path_buffer : kernel :=
  mk_kernel 32 4096 576 252 (fun g => g_minors g)
            true true true 0 0 0 None None None 0
            [(1, 0, 0); (2, 0, 0)] 16 false (fun _ => true) 0 0.

(** The same as [kernel_ok], but the symlink cannot be created. *)
Definition kernel_no_symlink : kernel :=
  mk_kernel 32 4096 576 252 (fun g => g_minors g)
            true true true 0 0 0 None None None 0
            [(1, 0, 0); (2, 0, 0)] 16 true (fun _ => false) 0 (- ENOMEM).

Definition no_geometry : option cas_exp_obj_ops := Some (mk_ops None).

(** The device "cas1-1" created on [sda], not yet activated. *)
Definition created_world : world :=
  match cas_exp_obj_create kernel_ok "cas1-1" 7 no_geometry 9 sda_world with
  | Ret _ w => w
  | Bug w => w
  end.

(** ** C3: unwinding of create and activate *)

(** C3, as the specification words it, fails: when
    [blk_mq_alloc_tag_set] fails, the object, the name, the module
    reference and the kobject are held, in this order; they are given
    back kobject, name, object, module, which is not the reverse of
    their acquisition (the module reference would have to go before the
    name). *)
Lemma create_unwind_not_reverse :
  exists w',
    cas_exp_obj_create kernel_no_tag_set "cas1-1" 7 no_geometry 9 sda_world
      = Ret (- ENOMEM) w' /\
    acquired (log w') = [RObj; RName; RModule; RKobj] /\
    released (log w') = [RKobj; RName; RObj; RModule] /\
    released (log w') <> rev (acquired (log w')).
Proof.
  eexists. split; [vm_compute; reflexivity|].
  vm_compute. repeat split; discriminate.
Qed.

(** C3, amended.  Whatever step of [cas_exp_obj_create] fails, each of
    the object, the name, the module reference, the kobject, the tag set
    and the disk with its queue that a completed step acquired is given
    back exactly once before the error is returned.  If the kobject was
    not registered yet this happens in the reverse order of acquisition
    and the disk structure is as before the call.  Otherwise what was
    acquired after the kobject goes first, in reverse order, then the
    kobject is put, and its release frees the name, then the object,
    and puts the module reference last.  A failing [set_geometry] also
    has the private pointer cleared and the bottom disk's flags and
    minors restored.  When [cas_exp_obj_activate] fails, what it did is
    undone in reverse order and the disk is left as it was, so the
    activation flag is false; a failure of the holder link or of the
    symlink comes after [add_disk] and is followed by [del_gendisk]. *)
Theorem create_activate_unwind :
  (forall k name own ops_ priv d l,
     own <> NULL -> is_some ops_ = true -> exp_obj d = None ->
     exists r d' lt,
       cas_exp_obj_create k name own ops_ priv (mk_world d l)
         = Ret r (mk_world d' (l ++ lt)) /\
       (r <> 0 ->
          released lt = kobject_unwind (acquired lt) /\
          Permutation (acquired lt) (released lt) /\
          (~ In RKobj (acquired lt) ->
             released lt = rev (acquired lt) /\ d' = d) /\
          (filter_map geometry_failure lt <> [] ->
             private d' = NULL /\ bd_disk d' = bd_disk d))) /\
  (forall k d l o g,
     exp_obj d = Some o -> gd o = Some g -> activated o = false ->
     exists r d' lt,
       cas_exp_obj_activate k (mk_world d l)
         = Ret r (mk_world d' (l ++ lt)) /\
       (r <> 0 ->
          released lt = rev (acquired lt) /\ d' = d /\
          (In A_add_disk lt -> In A_del_gendisk lt)) /\
       (kmalloc_path_ok k = true ->
        filp_open_ok k (device_path k (dev_name o)) = false ->
        (bd_link_disk_holder_res k <> 0 \/ sysfs_create_link_res k <> 0) ->
          r <> 0 /\ In A_add_disk lt /\ In A_del_gendisk lt /\
          exp_obj d' = Some o)).
Proof.
  split.
  - intros k name own ops_ priv d l Hown Hops Hobj.
    destruct (@create_spec k name own ops_ priv d l Hown Hops Hobj)
      as (r & d' & lt & Heq & _ & _ & Hfail & _).
    exists r, d', lt. split; [exact Heq|]. intros Hr.
    destruct (Hfail Hr) as (Hunw & Hgeo & Hearly & _).
    split; [exact Hunw|]. split.
    + rewrite Hunw. apply kobject_unwind_perm.
    + split; [|exact Hgeo]. intros Hn. split; [|auto].
      rewrite Hunw. apply kobject_unwind_early. exact Hn.
  - intros k d l o g Ho Hg Ha.
    destruct (@activate_spec k d l o g Ho Hg Ha)
      as (r & d' & lt & Heq & _ & _ & Hfail & Hlate & _).
    exists r, d', lt. split; [exact Heq|]. split; [exact Hfail|].
    intros Hk Hf Hres. destruct (Hlate Hk Hf Hres) as (Hr & Hadd).
    destruct (Hfail Hr) as (_ & -> & Hdel). auto.
Qed.

(** The failure of the tag set on "cas1-1", and the failure of the
    symlink when the created device is activated. *)
Lemma create_activate_unwind_witness :
  (exists r d' lt,
     cas_exp_obj_create kernel_no_tag_set "cas1-1" 7 no_geometry 9 sda_world
       = Ret r (mk_world d' ([] ++ lt)) /\
     (r <> 0 -> Permutation (acquired lt) (released lt))) /\
  (exists r d' lt,
     cas_exp_obj_activate kernel_no_symlink created_world
       = Ret r (mk_world d' (log created_world ++ lt)) /\
     r <> 0 /\ In A_del_gendisk lt).
Proof.
  destruct create_activate_unwind as (Hc & Ha). split.
  - destruct (Hc kernel_no_tag_set "cas1-1"%string 7 no_geometry 9
                 (fresh_disk "/dev/sda" true sda) [])
      as (r & d' & lt & Heq & Hfail).
    + unfold NULL. lia.
    + reflexivity.
    + reflexivity.
    + exists r, d', lt. split; [exact Heq|]. intros Hr.
      apply (proj1 (proj2 (Hfail Hr))).
  - destruct created_world as [d l] eqn:Hw.
    vm_compute in Hw. injection Hw as <- <-.
    match goal with
    | |- context [mk_world ?d ?l] =>
        match d with
        | context [Some ?o] =>
            match o with
            | context [Some ?g] =>
                destruct (Ha kernel_no_symlink d l o g
                             eq_refl eq_refl eq_refl)
                  as (r & d' & lt & Heq & _ & Hlate)
            end
        end
    end.
    exists r, d', lt. split; [exact Heq|].
    destruct Hlate as (Hr & _ & Hdel & _).
    + reflexivity.
    + reflexivity.
    + right. vm_compute. discriminate.
    + auto.
Defined.

(** Two things the late error paths of [cas_exp_obj_create] leave
    behind, which the statement above does not speak about.  After the
    failure of the tag set the object is back in the slab cache while
    [dsk->exp_obj] still holds its address; the early paths and
    [cas_exp_obj_free] reset it. *)
Example late_failure_keeps_handle :
  exists w' o,
    cas_exp_obj_create kernel_no_tag_set "cas1-1" 7 no_geometry 9 sda_world
      = Ret (- ENOMEM) w' /\
    exp_obj (dsk w') = Some o /\ freed o = true.
Proof.
  eexists _, _. split; [vm_compute; reflexivity|].
  split; reflexivity.
Qed.

(** The same as [kernel_ok], but no minors are left. *)
Definition kernel_no_minors : kernel :=
  mk_kernel 32 4096 576 252 (fun g => g_minors g)
            true true true 0 0 0 None None None 0
            [(1, 0, 0); (2, 0, 0)] (-1) true (fun _ => false) 0 0.

(** When [cas_disk_allocate_minors] fails the partitions of the bottom
    disk have been hidden already, and [error_exp_obj_set_dev_t] is
    below the call of [_cas_exp_obj_clear_dev_t]: the bottom disk keeps
    one minor and loses its flags. *)
Example minors_failure_keeps_partitions_hidden :
  exists w',
    cas_exp_obj_create kernel_no_minors "cas1-1" 7 no_geometry 9 sda_world
      = Ret (- EINVAL) w' /\
    g_minors (bd_disk (dsk sda_world)) = 16 /\
    g_minors (bd_disk (dsk w')) = 1 /\
    g_flags (bd_disk (dsk sda_world)) = 64 /\
    g_flags (bd_disk (dsk w')) = 0.
Proof.
  eexists. split; [vm_compute; reflexivity|].
  repeat split.
Qed.

(** ** C4: activating twice *)

(** The device "cas1-1", created and activated. *)
Definition activated_world : world :=
  match cas_exp_obj_activate kernel_ok created_world with
  | Ret _ w => w
  | Bug w => w
  end.

(** C4, as the specification words it, fails: the second
    [cas_exp_obj_activate] on "cas1-1" returns nothing at all, it stops
    in [BUG_ON(dsk->exp_obj->activated)]. *)
Lemma second_activate_returns_no_error :
  cas_exp_obj_create kernel_ok "cas1-1" 7 no_geometry 9 sda_world
    = Ret 0 created_world /\
  cas_exp_obj_activate kernel_ok created_world = Ret 0 activated_world /\
  cas_exp_obj_activate kernel_ok activated_world = Bug activated_world /\
  ~ (exists r w', cas_exp_obj_activate kernel_ok activated_world
                  = Ret r w').
Proof.
  split; [vm_compute; reflexivity|].
  split; [vm_compute; reflexivity|].
  assert (H : cas_exp_obj_activate kernel_ok activated_world
              = Bug activated_world) by (vm_compute; reflexivity).
  split; [exact H|]. intros (r & w' & H'). rewrite H in H'. discriminate.
Qed.

(** C4, amended.  On a device on which [cas_exp_obj_activate] has
    succeeded, another call, whatever the kernel would answer, ends in
    the [BUG_ON] on the activation flag: it returns no error code, and
    the disk and the log of kernel calls are those it was entered with,
    so nothing is registered a second time. *)
Theorem activate_twice_asserts (k k' : kernel) (w w' : world) :
  cas_exp_obj_activate k w = Ret 0 w' ->
  cas_exp_obj_activate k' w' = Bug w'.
Proof.
  intros H. destruct (activate_needs_fresh _ _ H) as (o & g & Ho & Hg & Ha).
  destruct w as [d l]. cbn [dsk] in Ho.
  destruct (@activate_spec k d l o g Ho Hg Ha)
    as (r & d' & lt & Heq & _ & _ & _ & _ & Hok).
  rewrite Heq in H. injection H as -> <-.
  destruct (Hok eq_refl) as (-> & _).
  eapply activate_twice_bug; reflexivity.
Qed.

Lemma activate_twice_asserts_witness :
  cas_exp_obj_activate kernel_no_symlink activated_world
    = Bug activated_world.
Proof.
  apply (@activate_twice_asserts kernel_ok kernel_no_symlink created_world).
  vm_compute. reflexivity.
Defined.

(** ** C7: the device node is already there *)

(** C7, as the specification words it, fails: with the node of "cas1-1"
    present but no memory for the path buffer, the call returns
    [-ENOMEM], not [-EEXIST]. *)
Lemma existing_path_without_buffer :
  filp_open_ok kernel_no_path_buffer
    (device_path kernel_no_path_buffer (Some "cas1-1"%string)) = true /\
  cas_exp_obj_activate kernel_no_path_buffer created_world
    = Ret (- ENOMEM)
          (mk_world (dsk created_world)
                    (log created_world ++ [A_kmalloc_path false])) /\
  ~ (exists w', cas_exp_obj_activate kernel_no_path_buffer created_world
                = Ret (- EEXIST) w').
Proof.
  split; [reflexivity|].
  assert (H : cas_exp_obj_activate kernel_no_path_buffer created_world
              = Ret (- ENOMEM)
                    (mk_world (dsk created_world)
                       (log created_world ++ [A_kmalloc_path false])))
    by (vm_compute; reflexivity).
  split; [exact H|]. intros (w' & H'). rewrite H in H'. discriminate.
Qed.

(** C7, amended.  On a created, not yet activated device whose path
    "/dev/<name>" can be opened, [cas_exp_obj_activate] returns
    [-EEXIST] provided the buffer for the path could be allocated; the
    calls it made are the allocation, the open, the close and the free,
    none of which registers anything, and the disk, hence the
    activation flag, is unchanged.  When the buffer cannot be allocated
    it returns [-ENOMEM] instead, with the disk unchanged as well. *)
Theorem activate_existing_path (k : kernel) (d : cas_disk)
        (l : list action) (o : cas_exp_obj) (g : gendisk) :
  exp_obj d = Some o -> gd o = Some g -> activated o = false ->
  filp_open_ok k (device_path k (dev_name o)) = true ->
  (kmalloc_path_ok k = true ->
     cas_exp_obj_activate k (mk_world d l)
       = Ret (- EEXIST)
             (mk_world d
                (l ++ [A_kmalloc_path true;
                       A_filp_open (device_path k (dev_name o)) true;
                       A_filp_close; A_kfree_path]))) /\
  (kmalloc_path_ok k = false ->
     cas_exp_obj_activate k (mk_world d l)
       = Ret (- ENOMEM) (mk_world d (l ++ [A_kmalloc_path false]))).
Proof.
  intros Ho Hg Ha Hf.
  destruct (@activate_spec k d l o g Ho Hg Ha)
    as (r & d' & lt & Heq & Hnomem & Hexist & _).
  rewrite Heq. split.
  - intros Hk. destruct (Hexist Hk Hf) as (-> & -> & ->). reflexivity.
  - intros Hk. destruct (Hnomem Hk) as (-> & -> & ->). reflexivity.
Qed.

(** The same kernel as [kernel_ok] with the node of "cas1-1" present. *)
Definition kernel_node_exists : kernel :=
  mk_kernel 32 4096 576 252 (fun g => g_minors g)
            true true true 0 0 0 None None None 0
            [(1, 0, 0); (2, 0, 0)] 16 true (fun _ => true) 0 0.

Lemma activate_existing_path_witness :
  exists l,
    cas_exp_obj_activate kernel_node_exists created_world
      = Ret (- EEXIST) (mk_world (dsk created_world) l) /\
    ~ In A_add_disk l.
Proof.
  destruct created_world as [d l] eqn:Hw.
  vm_compute in Hw. injection Hw as <- <-.
  eexists. split.
  - match goal with
    | |- cas_exp_obj_activate _ (mk_world ?d ?l) = _ =>
        match d with
        | context [Some ?o] =>
            match o with
            | context [Some ?g] =>
                apply (proj1 (@activate_existing_path kernel_node_exists
                                d l o g eq_refl eq_refl eq_refl eq_refl))
            end
        end
    end.
    reflexivity.
  - vm_compute. intuition discriminate.
Defined.

(** ** C8: the length of the name *)

(** The longest name [cas_exp_obj_create] accepts: [DISK_NAME_LEN]
    counts the terminating zero. *)
Definition max_name_length (k : kernel) : nat := DISK_NAME_LEN k - 1.

(** C8.  With a name of exactly the longest accepted length,
    [cas_exp_obj_create] gets past the check of the name: the first
    thing it does is to ask for the object.  With one character more it
    returns [-EINVAL] having called nothing and changed nothing. *)
Theorem create_name_length_boundary (k : kernel) (name : string)
        (own : ptr) (ops_ : option cas_exp_obj_ops) (priv : ptr)
        (d : cas_disk) (l : list action) :
  own <> NULL -> is_some ops_ = true -> exp_obj d = None ->
  (0 < DISK_NAME_LEN k)%nat ->
  (String.length name = max_name_length k ->
     exists r d' lt,
       cas_exp_obj_create k name own ops_ priv (mk_world d l)
         = Ret r (mk_world d'
                    (l ++ A_kmem_cache_zalloc (kmem_cache_zalloc_ok k)
                          :: lt))) /\
  (String.length name = S (max_name_length k) ->
     cas_exp_obj_create k name own ops_ priv (mk_world d l)
       = Ret (- EINVAL) (mk_world d l)).
Proof.
  intros Hown Hops Hobj Hpos. unfold max_name_length.
  destruct (@create_spec k name own ops_ priv d l Hown Hops Hobj)
    as (r & d' & lt & Heq & Hlong & Hshort & _).
  rewrite Heq. split.
  - intros Hlen. destruct Hshort as (lt' & ->); [lia|]. eauto.
  - intros Hlen. destruct Hlong as (-> & -> & ->); [lia|].
    rewrite app_nil_r. reflexivity.
Qed.

Lemma create_name_length_boundary_witness :
  (exists r d' lt,
     cas_exp_obj_create kernel_ok "cas-0123456789-0123456789-01234"
                        7 no_geometry 9 sda_world
       = Ret r (mk_world d' ([] ++ A_kmem_cache_zalloc true :: lt))) /\
  cas_exp_obj_create kernel_ok "cas-0123456789-0123456789-012345"
                     7 no_geometry 9 sda_world
    = Ret (- EINVAL) sda_world.
Proof.
  split.
  - refine (proj1 (@create_name_length_boundary kernel_ok _ 7 no_geometry
                     9 (fresh_disk "/dev/sda" true sda) [] _ _ _ _) _).
    + unfold NULL. lia.
    + reflexivity.
    + reflexivity.
    + cbn. lia.
    + reflexivity.
  - refine (proj2 (@create_name_length_boundary kernel_ok _ 7 no_geometry
                     9 (fresh_disk "/dev/sda" true sda) [] _ _ _ _) _).
    + unfold NULL. lia.
    + reflexivity.
    + reflexivity.
    + cbn. lia.
    + reflexivity.
Defined.

(** ** C10: destroying what was never created *)



(* ------------------------------------------------------------------ *)
(** ** Further properties of exp_obj.c                                  *)
(* ------------------------------------------------------------------ *)

(** The minors the exported disk asks for and the flags it inherits. *)
Definition wanted_minors (k : kernel) (d : cas_disk) : Z :=
  if bd_whole d then disk_max_parts k (bd_disk d) else 1.
Definition inherited_flags (k : kernel) (d : cas_disk) : Z :=
  if bd_whole d then Z.land (g_flags (bd_disk d)) (_cas_flags k) else 0.

(** The three ways [_cas_exp_obj_set_dev_t] can end. *)
Lemma set_dev_t_cases (k : kernel) (d : cas_disk) (l : list action)
        (o : cas_exp_obj) (g : gendisk) :
  exp_obj d = Some o -> gd o = Some g ->
  exists r d' lt,
    _cas_exp_obj_set_dev_t k (mk_world d l)
      = Ret r (mk_world d' (l ++ lt)) /\
    neutral lt /\
    (r = 0 \/ r = - EINVAL) /\
    (r = 0 ->
       0 <= cas_disk_allocate_minors_res k /\
       d' = d_set_exp_obj
              (Some (eo_set_gd
                       (Some (mk_gendisk
                                (Z.lor (g_flags g) (inherited_flags k d))
                                (wanted_minors k d)
                                (cas_disk_allocate_minors_res k)
                                (disk_major k) (g_disk_name g) (g_fops g)
                                (g_private_data g))) o))
              (if bd_whole d then hidden k d else d)) /\
    (r <> 0 ->
       (bd_whole d = true /\ d' = d) \/
       (cas_disk_allocate_minors_res k < 0 /\
        d' = d_set_exp_obj
               (Some (eo_set_gd
                        (Some (gd_set_first_minor
                                 (cas_disk_allocate_minors_res k) g)) o))
               (if bd_whole d then hidden k d else d))).
Proof.
  intros Ho Hg. destruct d, o; cbn in Ho, Hg; subst.
  match goal with |- context [mk_world ?d l] => set (d0 := d) end.
  unfold _cas_exp_obj_set_dev_t. unfold bind at 1. unfold get_dsk at 1.
  cbn [dsk log]. unfold bind at 1.
  unfold wanted_minors, inherited_flags.
  destruct (bd_whole d0) eqn:Hw; cbn [negb].
  - unfold bind at 1.
    destruct (hide_parts_spec k d0 l) as (r & d' & lt & -> & Hn & Hcase).
    destruct Hcase as [(_ & Hf & _)|[(-> & _ & ->)|(-> & _ & ->)]];
      [congruence| |].
    + cbn. unfold ret.
      exists (- EINVAL), d0, lt.
      split; [reflexivity|]. split; [exact Hn|]. split; [auto|].
      split; [discriminate|auto].
    + cbn [Z.eqb negb].
      destruct (cas_disk_allocate_minors_res k <? 0) eqn:Hm;
        eexists _, _, _;
        unfold bind, get_dsk, ret, call, modify_gd,
          get_exp_obj, modify_exp_obj, modify_dsk;
        cbn; rewrite ?Hm;
        (split; [rewrite <- ?app_assoc; reflexivity|]);
        (split; [solve_neutral; exact Hn|]);
        [apply Z.ltb_lt in Hm|apply Z.ltb_ge in Hm];
        (split; [auto|]); (split; [intros; try discriminate|]);
        auto; try (intros; exfalso; congruence).
  - destruct (cas_disk_allocate_minors_res k <? 0) eqn:Hm;
      eexists _, _, _;
      unfold bind, get_dsk, ret, call, modify_gd,
        get_exp_obj, modify_exp_obj, modify_dsk;
      cbn; rewrite ?Hm;
      (split; [reflexivity|]);
      (split; [solve_neutral|]);
      [apply Z.ltb_lt in Hm|apply Z.ltb_ge in Hm];
      (split; [auto|]); (split; [intros; try discriminate|]);
      auto; try (intros; exfalso; congruence).
Qed.

(** X6.  [_cas_exp_obj_set_dev_t] returns 0 or [-EINVAL] and nothing
    else, whatever error the deletion of the partitions or the
    allocation of minors reported.  On success the first minor is not
    negative, the exported disk has the module's major, one minor when
    the bottom device is a partition and otherwise as many as
    [disk_max_parts] gave before the partitions were hidden, and its
    flags are joined with those the bottom disk had among [_cas_flags];
    a whole bottom disk is then hidden.  On failure either nothing
    changed (hiding failed) or only the negative first minor was
    stored. *)
Theorem set_dev_t_outcome (k : kernel) (d : cas_disk) (l : list action)
        (o : cas_exp_obj) (g : gendisk) (r : Z) (w' : world) :
  exp_obj d = Some o -> gd o = Some g ->
  _cas_exp_obj_set_dev_t k (mk_world d l) = Ret r w' ->
  (r = 0 \/ r = - EINVAL) /\
  (r = 0 ->
     0 <= cas_disk_allocate_minors_res k /\
     (exists o' g',
        exp_obj (dsk w') = Some o' /\ gd o' = Some g' /\
        g_first_minor g' = cas_disk_allocate_minors_res k /\
        g_minors g' = wanted_minors k d /\
        g_major g' = disk_major k /\
        g_flags g' = Z.lor (g_flags g) (inherited_flags k d)) /\
     (bd_whole d = true ->
        g_minors (bd_disk (dsk w')) = 1 /\
        g_flags (bd_disk (dsk w'))
          = Z.land (g_flags (bd_disk d)) (Z.lnot (_cas_flags k))) /\
     (bd_whole d = false -> bd_disk (dsk w') = bd_disk d)) /\
  (r <> 0 ->
     bd_disk (dsk w') = bd_disk d \/
     (cas_disk_allocate_minors_res k < 0 /\ bd_whole d = true /\
      g_minors (bd_disk (dsk w')) = 1)).
Proof.
  intros Ho Hg Hs.
  destruct (@set_dev_t_cases k d l o g Ho Hg)
    as (r0 & d' & lt & Heq & _ & Hr & Hok & Hbad).
  rewrite Heq in Hs. injection Hs as -> <-. cbn [dsk].
  split; [exact Hr|]. split.
  - intros Hz. destruct (Hok Hz) as (Hfirst & ->).
    split; [exact Hfirst|]. split.
    + eexists _, _. cbn. repeat split.
    + split; intros Hw; rewrite Hw; cbn; auto.
  - intros Hnz. destruct (Hbad Hnz) as [(_ & ->)|(Hneg & ->)].
    + left. reflexivity.
    + destruct (bd_whole d) eqn:Hw; cbn; auto.
Qed.


(** ** Hiding and restoring the partitions *)

(** X7.  After a successful [_cas_exp_obj_hide_parts] a whole bottom
    disk has one minor and none of the [_cas_flags], the original values
    being saved in the disk structure; on a partition nothing happens at
    all.  In both cases [_cas_exp_obj_clear_dev_t] brings the bottom
    gendisk back to exactly what it was, for every value of the flags. *)
Theorem hide_then_clear_restores (k : kernel) (d : cas_disk)
        (l : list action) (w1 : world) :
  _cas_exp_obj_hide_parts k (mk_world d l) = Ret 0 w1 ->
  (bd_whole d = true ->
     g_minors (bd_disk (dsk w1)) = 1 /\
     g_flags (bd_disk (dsk w1))
       = Z.land (g_flags (bd_disk d)) (Z.lnot (_cas_flags k)) /\
     gd_minors (dsk w1) = g_minors (bd_disk d) /\
     gd_flags (dsk w1) = Z.land (g_flags (bd_disk d)) (_cas_flags k)) /\
  (bd_whole d = false -> w1 = mk_world d l) /\
  exists w2,
    _cas_exp_obj_clear_dev_t w1 = Ret tt w2 /\
    bd_disk (dsk w2) = bd_disk d /\
    exp_obj (dsk w2) = exp_obj d /\ private (dsk w2) = private d /\
    openers (dsk w2) = openers d /\ claimed (dsk w2) = claimed d.
Proof.
  intros Hh.
  destruct (hide_parts_spec k d l) as (r & d' & lt & Heq & Hn & Hcase).
  rewrite Heq in Hh. injection Hh as -> <-.
  destruct Hcase as [(_ & Hw & ->)|[(Hr & _)|(_ & Hw & ->)]];
    [|discriminate|].
  - split; [congruence|]. split.
    + intros _. unfold _cas_exp_obj_hide_parts, bind, get_dsk, ret in Heq.
      cbn [dsk] in Heq. rewrite Hw in Heq. cbn in Heq.
      injection Heq as Heq. f_equal. symmetry. exact Heq.
    + unfold _cas_exp_obj_clear_dev_t, bind, get_dsk, ret. cbn [dsk].
      rewrite Hw. eexists. split; [reflexivity|]. repeat split.
  - split; [intros _; repeat split|]. split; [congruence|].
    unfold _cas_exp_obj_clear_dev_t, bind, get_dsk, modify_dsk, call, ret.
    cbn [dsk log]. unfold hidden at 1. cbn [bd_whole d_set_bd_disk
      d_set_gd_minors d_set_gd_flags]. rewrite Hw.
    eexists. split; [reflexivity|]. cbn.
    rewrite restore_flags. destruct d as [? ? ? ? ? ? ? ? []]; cbn.
    repeat split.
Qed.

(** X8.  [_cas_exp_obj_hide_parts] fails only on a whole disk with more
    than one possible partition, only with [-EINVAL], and then leaves
    the disk structure as it was; the last thing it does is to have the
    partitions read again. *)
Theorem hide_parts_failure_unchanged (k : kernel) (d : cas_disk)
        (l : list action) (r : Z) (w1 : world) :
  _cas_exp_obj_hide_parts k (mk_world d l) = Ret r w1 -> r <> 0 ->
  r = - EINVAL /\ bd_whole d = true /\ dsk w1 = d /\
  disk_max_parts k (bd_disk d) > 1 /\
  exists lt, log w1 = l ++ lt ++ [A_reread_partitions].
Proof.
  intros Hh Hr. unfold _cas_exp_obj_hide_parts in Hh.
  unfold bind at 1 in Hh. unfold get_dsk at 1 in Hh. cbn [dsk] in Hh.
  destruct (bd_whole d) eqn:Hw; cbn [negb] in Hh;
    [|injection Hh as <- _; congruence].
  unfold bind at 1 in Hh.
  destruct (disk_max_parts k (bd_disk d) >? 1) eqn:Hmax.
  - destruct (del_partitions_spec k d l) as (r1 & lt & Heq & _).
    rewrite Heq in Hh. destruct (r1 =? 0); cbn [negb] in Hh.
    + unfold bind, modify_dsk, call, ret in Hh. cbn in Hh.
      injection Hh as <- _. congruence.
    + unfold bind, call, ret in Hh. cbn in Hh. injection Hh as <- <-.
      cbn. repeat split; [lia|]. exists lt. rewrite app_assoc. reflexivity.
  - unfold ret at 1 in Hh. cbn in Hh.
    unfold bind, modify_dsk, call, ret in Hh. cbn in Hh.
    injection Hh as <- _. congruence.
Qed.


(** ** Deleting the partitions *)

(** The partition numbers [cas_bd_get_next_part] hands out. *)
Fixpoint handed_out (parts : list (Z * Z * Z)) : list Z :=
  match parts with
  | [] => []
  | (part_no, _, _) :: rest =>
      if part_no =? 0 then [] else part_no :: handed_out rest
  end.

(** The partitions a log shows as deleted. *)
Definition deleted_part (a : action) : option Z :=
  match a with
  | A_ioctl_blkpg part_no res => if res =? 0 then Some part_no else None
  | _ => None
  end.

Definition count (p : action -> bool) (l : list action) : nat :=
  length (filter p l).

Definition is_open (a : action) : bool :=
  match a with A_filp_open _ true => true | _ => false end.
Definition is_close (a : action) : bool :=
  match a with A_filp_close => true | _ => false end.
Definition is_mmap (a : action) : bool :=
  match a with A_vm_mmap true => true | _ => false end.
Definition is_munmap (a : action) : bool :=
  match a with A_vm_munmap => true | _ => false end.

Lemma loop_log_deleted parts :
  exists rest,
    handed_out parts = filter_map deleted_part (loop_log parts) ++ rest /\
    (loop_result parts = 0 -> rest = []) /\
    count is_open (loop_log parts) = O /\
    count is_close (loop_log parts) = O /\
    count is_mmap (loop_log parts) = O /\
    count is_munmap (loop_log parts) = O.
Proof.
  induction parts as [|[[p c] i] parts IH]; cbn.
  - exists []. repeat split.
  - destruct (Z.eqb_spec p 0); cbn; [exists []; repeat split|].
    destruct (Z.eqb_spec c 0); cbn.
    + destruct (Z.eqb_spec i 0); cbn.
      * destruct IH as (rest & -> & Hr & A & B & C & D).
        exists rest. repeat split; auto.
      * eexists. split; [reflexivity|]. repeat split. congruence.
    + eexists. split; [reflexivity|]. repeat split. unfold EINVAL.
      discriminate.
Qed.

Lemma count_app p l1 l2 : count p (l1 ++ l2) = (count p l1 + count p l2)%nat.
Proof. unfold count. rewrite filter_app, length_app. reflexivity. Qed.

(** [IS_ERR] pointers carry a negative error number. *)
Definition err_ptrs_negative (k : kernel) : Prop :=
  (forall e, filp_open_bdev_err k = Some e -> e < 0) /\
  (forall e, vm_mmap_bpart_err k = Some e -> e < 0) /\
  (forall e, vm_mmap_barg_err k = Some e -> e < 0).

(** X9.  In every run of [_cas_del_partitions] the file opened is
    closed once and every mapping made is unmapped once, on the error
    paths as well.  The partitions are deleted in the order they are
    handed out and the deletion stops at the first failure; the function
    returns 0 only when all of them were deleted. *)
Theorem del_partitions_balanced (k : kernel) (d : cas_disk)
        (l : list action) :
  err_ptrs_negative k ->
  exists r lt rest,
    _cas_del_partitions k (mk_world d l) = Ret r (mk_world d (l ++ lt)) /\
    count is_open lt = count is_close lt /\
    count is_mmap lt = count is_munmap lt /\
    handed_out (partitions k) = filter_map deleted_part lt ++ rest /\
    (r = 0 -> rest = []).
Proof.
  intros (Ho & Hp & Ha).
  unfold _cas_del_partitions, bind, get_dsk, call, ret. cbn [dsk log].
  destruct (filp_open_bdev_err k) as [e|].
  { eexists _, _, _. split; [reflexivity|]. cbn.
    repeat split. intros ->. specialize (Ho 0 eq_refl). lia. }
  destruct (vm_mmap_bpart_err k) as [e|].
  { eexists _, _, _. split; [cbn [dsk log]; rewrite <- ?app_assoc; reflexivity|]. cbn.
    repeat split. intros ->. specialize (Hp 0 eq_refl). lia. }
  destruct (vm_mmap_barg_err k) as [e|].
  { eexists _, _, _. split; [cbn [dsk log]; rewrite <- ?app_assoc; reflexivity|]. cbn.
    repeat split. intros ->. specialize (Ha 0 eq_refl). lia. }
  destruct (Z.eqb_spec (copy_to_user_barg k) 0) as [Hc|Hc]; cbn [negb].
  - rewrite del_partitions_loop_eq. cbn [dsk log].
    destruct (loop_log_deleted (partitions k))
      as (rest & Hd & Hr & A & B & C & D).
    eexists _, _, rest. split; [cbn [dsk log]; rewrite <- ?app_assoc; reflexivity|].
    cbn [app]. unfold count in *. cbn [filter is_open is_close is_mmap
      is_munmap length filter_map deleted_part].
    rewrite !filter_app, !length_app, ?filter_map_app.
    rewrite A, B, C, D. cbn. rewrite app_nil_r.
    repeat split; auto.
  - eexists _, _, _. split; [cbn [dsk log]; rewrite <- ?app_assoc; reflexivity|]. cbn.
    repeat split. unfold EINVAL. discriminate.
Qed.


(** ** Openers and the claim *)





Definition final_world {A} (o : outcome A) : world :=
  match o with Ret _ w => w | Bug w => w end.




(** X11.  On an unclaimed device a close undoes a successful open and
    an unlock undoes a successful lock, the disk being exactly as
    before; a close when nobody has the device open runs into
    [BUG_ON]. *)
Theorem open_close_lock_unlock_round_trip (d : cas_disk) (l : list action) :
  claimed d = false ->
  (0 <= openers d < UINT_MAX ->
     exists w1, _cas_exp_obj_open (mk_world d l) = Ret 0 w1 /\
                _cas_exp_obj_close w1 = Ret tt (mk_world d l)) /\
  (openers d = 0 ->
     _cas_exp_obj_close (mk_world d l) = Bug (mk_world d l) /\
     (exp_obj d <> None ->
        exists w1, cas_exp_obj_lock (mk_world d l) = Ret 0 w1 /\
                   cas_exp_obj_unlock w1 = Ret 0 (mk_world d l))).
Proof.
  intros Hcl. split.
  - intros Hr. unfold UINT_MAX in Hr. rewrite open_unfold, Hcl.
    destruct (Z.eqb_spec (openers d) UINT_MAX) as [He|Hne];
      [unfold UINT_MAX in He; lia|].
    eexists. split; [reflexivity|].
    unfold _cas_exp_obj_close, bind, get_dsk, BUG_ON, modify_dsk.
    cbn [dsk log openers d_set_openers].
    rewrite (Z.mod_small (openers d + 1)) by lia.
    destruct (Z.eqb_spec (openers d + 1) 0); [lia|]. cbn.
    replace (openers d + 1 - 1) with (openers d) by lia.
    rewrite Z.mod_small by lia.
    destruct d; reflexivity.
  - intros Hz. split.
    + unfold _cas_exp_obj_close, bind, get_dsk, BUG_ON. cbn [dsk].
      rewrite Hz. reflexivity.
    + intros Ho.
      unfold cas_exp_obj_lock, cas_exp_obj_unlock, bind, get_dsk, BUG_ON,
        modify_dsk, ret. cbn [dsk log].
      destruct (exp_obj d) eqn:He; [|congruence]. cbn. rewrite Hz. cbn.
      eexists. split; [reflexivity|]. cbn.
      destruct d; cbn in *; subst; reflexivity.
Qed.


(** ** A successful create *)

Lemma substring_all (s : string) :
  forall n, (String.length s <= n)%nat -> substring 0 n s = s.
Proof.
  induction s as [|c s IH]; intros n Hn; cbn in *.
  - destruct n; reflexivity.
  - destruct n as [|n]; [lia|]. rewrite IH by lia. reflexivity.
Qed.

(** [cas_exp_obj_get_queue] and [cas_exp_obj_get_gendisk]. *)
Definition cas_exp_obj_get_queue : M (option request_queue) :=
  o <- get_exp_obj ;; ret (queue o).

Definition cas_exp_obj_get_gendisk : M (option gendisk) :=
  o <- get_exp_obj ;; ret (gd o).

(** The exported disk and object a successful create builds. *)
Definition exported_gendisk (k : kernel) (name : string) (d : cas_disk)
  : gendisk :=
  mk_gendisk (inherited_flags k d) (wanted_minors k d)
             (cas_disk_allocate_minors_res k) (disk_major k)
             name true true.

Definition exported_object (k : kernel) (name : string) (own : ptr)
           (ops_ : cas_exp_obj_ops) (d : cas_disk) : cas_exp_obj :=
  mk_exp_obj (Some name) own (Some ops_)
             (Some (exported_gendisk k name d))
             (Some (mk_queue true true)) false 1 false.

Definition created_disk (k : kernel) (name : string) (own : ptr)
           (ops_ : cas_exp_obj_ops) (priv : ptr) (d : cas_disk)
  : cas_disk :=
  d_set_tag_set true
    (d_set_private priv
       (d_set_exp_obj (Some (exported_object k name own ops_ d))
          (if bd_whole d then hidden k d else d))).

Lemma create_ok_spec k name own ops_ priv d l :
  own <> NULL -> exp_obj d = None ->
  exists r d' lt,
    cas_exp_obj_create k name own (Some ops_) priv (mk_world d l)
      = Ret r (mk_world d' (l ++ lt)) /\
    (r = 0 ->
       (String.length name < DISK_NAME_LEN k)%nat /\
       0 <= cas_disk_allocate_minors_res k /\
       d' = created_disk k name own ops_ priv d /\
       acquired lt = [RObj; RName; RModule; RKobj; RTagSet; RMqDisk] /\
       released lt = []).
Proof.
  intros Hown Hobj.
  destruct d; cbn in Hobj; subst. destruct ops_ as [geom].
  apply Z.eqb_neq in Hown. run.
  destruct (Nat.leb_spec (DISK_NAME_LEN k) (String.length name)) as [Hl|Hl].
  { eexists _, _, []. rewrite app_nil_r. split; [reflexivity|].
    discriminate. }
  destruct (kmem_cache_zalloc_ok k) eqn:Hz; [|leaf; discriminate].
  run. destruct (kstrdup_ok k) eqn:Hk; [|leaf; discriminate].
  run. destruct (try_module_get_ok k) eqn:Hm; [|leaf; discriminate].
  run. destruct (kobject_add_res k =? 0) eqn:Hko;
    [|leaf; apply Z.eqb_neq in Hko; congruence].
  run. destruct (blk_mq_alloc_tag_set_res k =? 0) eqn:Hts;
    [|leaf; apply Z.eqb_neq in Hts; congruence].
  run. destruct (cas_alloc_mq_disk_res k =? 0) eqn:Hmq;
    [|leaf; apply Z.eqb_neq in Hmq; congruence].
  run.
  match goal with
  | |- context [_cas_exp_obj_set_dev_t k (mk_world ?d ?l)] =>
      destruct (@set_dev_t_cases k d l _ _ eq_refl eq_refl)
        as (r & d1 & lt & Hsd & Hn & _ & Hok & Hbad);
      rewrite Hsd; clear Hsd
  end.
  destruct (r =? 0) eqn:Hr.
  2:{ apply Z.eqb_neq in Hr.
      destruct (Hbad Hr) as [(_ & ->)|(_ & ->)];
        (destruct bd_whole0; leaf; congruence). }
  apply Z.eqb_eq in Hr. destruct (Hok Hr) as (Hfirst & ->). clear Hok.
  assert (Hname : substring 0 (DISK_NAME_LEN k - 1) name = name)
    by (apply substring_all; lia).
  unfold created_disk, exported_object, exported_gendisk,
    inherited_flags, wanted_minors.
  clear Hbad.
  destruct geom as [geom|].
  - destruct (geom =? 0) eqn:Hge;
      [|destruct bd_whole0; leaf; apply Z.eqb_neq in Hge; congruence].
    destruct bd_whole0; leaf; intros _; rewrite Hname;
      (split; [exact Hl|]); (split; [exact Hfirst|]);
      (split; [reflexivity|]); post.
  - destruct bd_whole0; leaf; intros _; rewrite Hname;
      (split; [exact Hl|]); (split; [exact Hfirst|]);
      (split; [reflexivity|]); post.
Qed.


(** X12.  When [cas_exp_obj_create] returns 0 the name was shorter than
    [DISK_NAME_LEN] and is the disk name in full, the object, the name,
    the module reference, the kobject, the tag set and the disk were
    acquired in this order and none was given back, the private pointer
    is the caller's, the device is not activated, and
    [cas_exp_obj_get_gendisk] and [cas_exp_obj_get_queue] return the
    disk and the queue that were set up, both pointing back at the
    disk structure. *)
Theorem create_success_state (k : kernel) (name : string) (own : ptr)
        (ops_ : cas_exp_obj_ops) (priv : ptr) (d : cas_disk)
        (l : list action) (w1 : world) :
  own <> NULL -> exp_obj d = None ->
  cas_exp_obj_create k name own (Some ops_) priv (mk_world d l) = Ret 0 w1 ->
  (String.length name < DISK_NAME_LEN k)%nat /\
  0 <= cas_disk_allocate_minors_res k /\
  dsk w1 = created_disk k name own ops_ priv d /\
  (exists lt, log w1 = l ++ lt /\
     acquired lt = [RObj; RName; RModule; RKobj; RTagSet; RMqDisk] /\
     released lt = []) /\
  cas_exp_obj_get_gendisk w1 = Ret (Some (exported_gendisk k name d)) w1 /\
  cas_exp_obj_get_queue w1 = Ret (Some (mk_queue true true)) w1.
Proof.
  intros Hown Hobj Hc.
  destruct (@create_ok_spec k name own ops_ priv d l Hown Hobj)
    as (r & d' & lt & Heq & Hok).
  rewrite Heq in Hc. injection Hc as -> <-.
  destruct (Hok eq_refl) as (Hl & Hf & -> & Ha & Hr).
  split; [exact Hl|]. split; [exact Hf|]. split; [reflexivity|].
  split; [exists lt; auto|].
  unfold created_disk, exported_object. split; reflexivity.
Qed.

(** ** destroy and free *)

(** X13.  [cas_exp_obj_destroy] on a device that was created but never
    activated cleans up the queue, frees the tag set and puts the disk,
    and does not touch the bottom disk: the partitions a whole bottom
    disk lost at create stay hidden (one minor, no [_cas_flags]). *)
Theorem destroy_unactivated_keeps_partitions_hidden
        (k : kernel) (name : string) (own : ptr)
        (ops_ : cas_exp_obj_ops) (priv : ptr) (d : cas_disk)
        (l : list action) (w1 : world) :
  own <> NULL -> exp_obj d = None ->
  cas_exp_obj_create k name own (Some ops_) priv (mk_world d l) = Ret 0 w1 ->
  exists w3,
    cas_exp_obj_destroy w1 = Ret 0 w3 /\
    log w3 = log w1 ++ [A_blk_cleanup_queue; A_blk_mq_free_tag_set;
                        A_put_disk] /\
    bd_disk (dsk w3) = bd_disk (dsk w1) /\
    (bd_whole d = true ->
       g_minors (bd_disk (dsk w3)) = 1 /\
       g_flags (bd_disk (dsk w3))
         = Z.land (g_flags (bd_disk d)) (Z.lnot (_cas_flags k))).
Proof.
  intros Hown Hobj Hc.
  destruct (@create_ok_spec k name own ops_ priv d l Hown Hobj)
    as (r & d' & lt & Heq & Hok).
  rewrite Heq in Hc. injection Hc as -> <-.
  destruct (Hok eq_refl) as (_ & _ & -> & _ & _).
  unfold created_disk, exported_object. run.
  eexists. split; [reflexivity|]. cbn [log dsk].
  split; [rewrite <- ?app_assoc; reflexivity|].
  split; [reflexivity|]. intros ->. split; reflexivity.
Qed.

(** X14.  Create, activate, destroy, free.  The destroy removes the
    symlink, the holder link, restores the partitions of a whole bottom
    disk and unregisters the device, the reverse of what activate did,
    then releases queue, tag set and disk; the free puts the kobject,
    which frees the name and the object and puts the module.  After it
    the handle is null, the bottom gendisk is exactly as before the
    create, openers and claim are untouched, the private pointer is
    still the caller's, and one more destroy returns [-ENODEV]. *)
Theorem full_life_cycle (k1 k2 : kernel) (name : string) (own : ptr)
        (ops_ : cas_exp_obj_ops) (priv : ptr) (d : cas_disk)
        (l : list action) (w1 w2 : world) :
  own <> NULL -> exp_obj d = None ->
  cas_exp_obj_create k1 name own (Some ops_) priv (mk_world d l)
    = Ret 0 w1 ->
  cas_exp_obj_activate k2 w1 = Ret 0 w2 ->
  exists w3 w4,
    cas_exp_obj_destroy w2 = Ret 0 w3 /\
    cas_exp_obj_free w3 = Ret tt w4 /\
    log w3 = log w2 ++ [A_sysfs_remove_link; A_bd_unlink_disk_holder]
                    ++ (if bd_whole d then [A_reread_partitions] else [])
                    ++ [A_del_gendisk; A_blk_cleanup_queue;
                        A_blk_mq_free_tag_set; A_put_disk] /\
    log w4 = log w3 ++ [A_kobject_put; A_kfree_dev_name;
                        A_kmem_cache_free; A_module_put] /\
    exp_obj (dsk w4) = None /\ bd_disk (dsk w4) = bd_disk d /\
    tag_set (dsk w4) = false /\ private (dsk w4) = priv /\
    openers (dsk w4) = openers d /\ claimed (dsk w4) = claimed d /\
    cas_exp_obj_destroy w4 = Ret (- ENODEV) w4.
Proof.
  intros Hown Hobj Hc Ha.
  destruct (@create_ok_spec k1 name own ops_ priv d l Hown Hobj)
    as (r & d' & lt & Heq & Hok).
  rewrite Heq in Hc. injection Hc as -> <-.
  destruct (Hok eq_refl) as (_ & _ & -> & _ & _). clear Hok Heq.
  destruct (@activate_spec k2 (created_disk k1 name own ops_ priv d)
              (l ++ lt) (exported_object k1 name own ops_ d)
              (exported_gendisk k1 name d))
    as (r & d2 & lt2 & Heq & _ & _ & _ & _ & Hok).
  { unfold created_disk. destruct (bd_whole d); reflexivity. }
  { reflexivity. }
  { reflexivity. }
  rewrite Heq in Ha. injection Ha as -> <-.
  destruct (Hok eq_refl) as (-> & _ & _). clear Hok Heq.
  apply Z.eqb_neq in Hown.
  destruct d as [? ? ? ? ? ? ? [|] [] ?]; cbn in Hobj; subst;
    unfold created_disk, exported_object; run;
    eexists _, _; (split; [reflexivity|]); run;
    (split; [reflexivity|]); cbn [log dsk];
    (split; [rewrite <- ?app_assoc; reflexivity|]);
    (split; [rewrite <- ?app_assoc; reflexivity|]);
    cbn; rewrite ?restore_flags; repeat split.
Qed.

Lemma destroy_some (d : cas_disk) (l : list action) (o : cas_exp_obj) :
  exp_obj d = Some o ->
  exists d' lt,
    cas_exp_obj_destroy (mk_world d l) = Ret 0 (mk_world d' (l ++ lt)) /\
    In A_blk_mq_free_tag_set lt /\ In A_put_disk lt /\
    exp_obj d' = Some o.
Proof.
  intros Ho. destruct d, o; cbn in Ho; subst. run.
  destruct activated0, bd_whole0, queue0; run;
    eexists _, _; (split; [rewrite <- ?app_assoc; reflexivity|]);
    cbn; intuition.
Qed.

(** X15.  When [cas_exp_obj_create] fails after the kobject was
    registered, the disk is left with a handle to the freed object; a
    [cas_exp_obj_destroy] then does not return [-ENODEV]: reading the
    freed object as create left it, it returns 0 after calling
    [blk_mq_free_tag_set] and [put_disk] on the released device. *)
Theorem late_failure_then_destroy (k : kernel) (name : string) (own : ptr)
        (ops_ : option cas_exp_obj_ops) (priv : ptr) (d : cas_disk)
        (l : list action) (r : Z) (d' : cas_disk) (lt : list action) :
  own <> NULL -> is_some ops_ = true -> exp_obj d = None ->
  cas_exp_obj_create k name own ops_ priv (mk_world d l)
    = Ret r (mk_world d' (l ++ lt)) ->
  r <> 0 -> In RKobj (acquired lt) ->
  exists o d'' lt',
    exp_obj d' = Some o /\ freed o = true /\
    cas_exp_obj_destroy (mk_world d' (l ++ lt))
      = Ret 0 (mk_world d'' ((l ++ lt) ++ lt')) /\
    In A_blk_mq_free_tag_set lt' /\ In A_put_disk lt'.
Proof.
  intros Hown Hops Hobj Hc Hr Hk.
  destruct (@create_spec k name own ops_ priv d l Hown Hops Hobj)
    as (r0 & d0 & lt0 & Heq & _ & _ & Hfail & _).
  rewrite Heq in Hc. injection Hc as -> -> Hl.
  apply app_inv_head in Hl. subst lt0.
  destruct (Hfail Hr) as (_ & _ & _ & Hlate).
  destruct (Hlate Hk) as (o & Ho & Hf).
  destruct (@destroy_some d' (l ++ lt) o Ho) as (d'' & lt' & Hd & A & B & _).
  exists o, d'', lt'. auto.
Qed.

(** ** Instances *)

(** The same as [kernel_ok], but the bottom device cannot be opened. *)
Definition kernel_no_bdev : kernel :=
  mk_kernel 32 4096 576 252 (fun g => g_minors g)
            true true true 0 0 0 (Some (-2)) None None 0
            [(1, 0, 0); (2, 0, 0)] 16 true (fun _ => false) 0 0.

(** [sda] with a zeroed exported disk attached, as create has it when it
    calls [_cas_exp_obj_set_dev_t]. *)
Definition sda_with_gendisk : cas_disk :=
  d_set_exp_obj (Some (eo_set_gd (Some zeroed_gendisk) zeroed_exp_obj))
                (fresh_disk "/dev/sda" true sda).

Lemma set_dev_t_outcome_witness :
  let r := _cas_exp_obj_set_dev_t kernel_ok (mk_world sda_with_gendisk []) in
  exists w', r = Ret 0 w' /\ g_minors (bd_disk (dsk w')) = 1.
Proof.
  cbv zeta.
  assert (H : _cas_exp_obj_set_dev_t kernel_ok
                (mk_world sda_with_gendisk [])
              = Ret 0 (final_world
                         (_cas_exp_obj_set_dev_t kernel_ok
                            (mk_world sda_with_gendisk []))))
    by (vm_compute; reflexivity).
  destruct (@set_dev_t_outcome kernel_ok sda_with_gendisk []
              (eo_set_gd (Some zeroed_gendisk) zeroed_exp_obj)
              zeroed_gendisk _ _ eq_refl eq_refl H)
    as (_ & Hok & _).
  destruct (Hok eq_refl) as (_ & _ & Hw & _).
  eexists. split; [exact H|]. apply (Hw eq_refl).
Defined.

Lemma hide_then_clear_restores_witness :
  exists w1 w2,
    _cas_exp_obj_hide_parts kernel_ok sda_world = Ret 0 w1 /\
    g_minors (bd_disk (dsk w1)) = 1 /\
    _cas_exp_obj_clear_dev_t w1 = Ret tt w2 /\
    bd_disk (dsk w2) = sda.
Proof.
  assert (H : _cas_exp_obj_hide_parts kernel_ok sda_world
              = Ret 0 (final_world
                         (_cas_exp_obj_hide_parts kernel_ok sda_world)))
    by (vm_compute; reflexivity).
  destruct (@hide_then_clear_restores _ _ _ _ H)
    as (Hw & _ & w2 & Hc & Hbd & _).
  destruct (Hw eq_refl) as (Hm & _).
  eexists _, w2. split; [exact H|]. auto.
Defined.

Lemma hide_parts_failure_unchanged_witness :
  exists w1,
    _cas_exp_obj_hide_parts kernel_no_bdev sda_world = Ret (- EINVAL) w1 /\
    dsk w1 = dsk sda_world.
Proof.
  assert (H : _cas_exp_obj_hide_parts kernel_no_bdev sda_world
              = Ret (- EINVAL)
                    (final_world
                       (_cas_exp_obj_hide_parts kernel_no_bdev sda_world)))
    by (vm_compute; reflexivity).
  assert (Hne : - EINVAL <> 0) by (unfold EINVAL; lia).
  destruct (@hide_parts_failure_unchanged _ _ _ _ _ H Hne) as (_ & _ & Hd & _).
  eexists. split; [exact H|exact Hd].
Defined.

Lemma del_partitions_balanced_witness :
  exists r lt,
    _cas_del_partitions kernel_ok sda_world
      = Ret r (mk_world (dsk sda_world) ([] ++ lt)) /\
    count is_open lt = count is_close lt /\
    count is_mmap lt = count is_munmap lt.
Proof.
  assert (He : err_ptrs_negative kernel_ok)
    by (repeat split; intros e H; discriminate H).
  destruct (@del_partitions_balanced kernel_ok (dsk sda_world) [] He)
    as (r & lt & rest & Heq & A & B & _).
  exists r, lt. auto.
Defined.



Lemma open_close_lock_unlock_round_trip_witness :
  exists w1, _cas_exp_obj_open sda_world = Ret 0 w1 /\
             _cas_exp_obj_close w1 = Ret tt sda_world.
Proof.
  refine (proj1 (@open_close_lock_unlock_round_trip
                   (fresh_disk "/dev/sda" true sda) [] eq_refl) _).
  cbn. unfold UINT_MAX. lia.
Defined.

Lemma create_success_state_witness :
  cas_exp_obj_get_gendisk created_world
    = Ret (Some (exported_gendisk kernel_ok "cas1-1"
                                  (fresh_disk "/dev/sda" true sda)))
          created_world /\
  cas_exp_obj_get_queue created_world
    = Ret (Some (mk_queue true true)) created_world.
Proof.
  assert (Hown : (7 : ptr) <> NULL) by (unfold NULL; lia).
  assert (Hc : cas_exp_obj_create kernel_ok "cas1-1" 7
                 (Some (mk_ops None)) 9
                 (mk_world (fresh_disk "/dev/sda" true sda) [])
               = Ret 0 created_world) by (vm_compute; reflexivity).
  destruct (@create_success_state kernel_ok _ 7 (mk_ops None) 9
              (fresh_disk "/dev/sda" true sda) [] _ Hown eq_refl Hc)
    as (_ & _ & _ & _ & Hg & Hq).
  split; [exact Hg|exact Hq].
Defined.

Lemma destroy_unactivated_keeps_partitions_hidden_witness :
  exists w3,
    cas_exp_obj_destroy created_world = Ret 0 w3 /\
    g_minors (bd_disk (dsk w3)) = 1.
Proof.
  assert (Hown : (7 : ptr) <> NULL) by (unfold NULL; lia).
  assert (Hc : cas_exp_obj_create kernel_ok "cas1-1" 7
                 (Some (mk_ops None)) 9
                 (mk_world (fresh_disk "/dev/sda" true sda) [])
               = Ret 0 created_world) by (vm_compute; reflexivity).
  destruct (@destroy_unactivated_keeps_partitions_hidden kernel_ok _ 7
              (mk_ops None) 9 (fresh_disk "/dev/sda" true sda) [] _
              Hown eq_refl Hc)
    as (w3 & Hd & _ & _ & Hh).
  exists w3. split; [exact Hd|]. apply (Hh eq_refl).
Defined.

Lemma full_life_cycle_witness :
  exists w3 w4,
    cas_exp_obj_destroy activated_world = Ret 0 w3 /\
    cas_exp_obj_free w3 = Ret tt w4 /\
    exp_obj (dsk w4) = None /\ bd_disk (dsk w4) = sda.
Proof.
  assert (Hown : (7 : ptr) <> NULL) by (unfold NULL; lia).
  assert (Hc : cas_exp_obj_create kernel_ok "cas1-1" 7
                 (Some (mk_ops None)) 9
                 (mk_world (fresh_disk "/dev/sda" true sda) [])
               = Ret 0 created_world) by (vm_compute; reflexivity).
  assert (Ha : cas_exp_obj_activate kernel_ok created_world
               = Ret 0 activated_world) by (vm_compute; reflexivity).
  destruct (@full_life_cycle kernel_ok kernel_ok _ 7 (mk_ops None) 9
              (fresh_disk "/dev/sda" true sda) [] _ _ Hown eq_refl Hc Ha)
    as (w3 & w4 & Hd & Hf & _ & _ & Hn & Hb & _).
  exists w3, w4. auto.
Defined.

Lemma late_failure_then_destroy_witness :
  exists w1 w2,
    cas_exp_obj_create kernel_no_tag_set "cas1-1" 7 no_geometry 9 sda_world
      = Ret (- ENOMEM) w1 /\
    cas_exp_obj_destroy w1 = Ret 0 w2.
Proof.
  assert (Hown : (7 : ptr) <> NULL) by (unfold NULL; lia).
  set (w1 := final_world
               (cas_exp_obj_create kernel_no_tag_set "cas1-1" 7
                                   no_geometry 9 sda_world)).
  assert (Hc : cas_exp_obj_create kernel_no_tag_set "cas1-1" 7 no_geometry
                 9 (mk_world (fresh_disk "/dev/sda" true sda) [])
               = Ret (- ENOMEM) (mk_world (dsk w1) ([] ++ log w1)))
    by (vm_compute; reflexivity).
  assert (Hr : - ENOMEM <> 0) by (unfold ENOMEM; lia).
  assert (Hk : In RKobj (acquired (log w1)))
    by (vm_compute; intuition).
  destruct (@late_failure_then_destroy kernel_no_tag_set _ 7 no_geometry 9
              (fresh_disk "/dev/sda" true sda) [] _ _ _
              Hown eq_refl eq_refl Hc Hr Hk)
    as (o & d'' & lt' & _ & _ & Hd & _).
  exists (mk_world (dsk w1) ([] ++ log w1)). eexists.
  split; [exact Hc|exact Hd].
Defined.

End ExpObjProps.

(* ================================================================== *)
(** * Further properties of threads.c                                   *)
(* ================================================================== *)

Section QueueWorkerMore.

Import Threads.
Local Open Scope N_scope.

Variable ocf_queue_run : N -> N.


(** X2.  A worker waiting on an empty queue is not moved by kicks or by
    being scheduled: as long as nothing is queued and nobody stops it,
    it never calls [ocf_queue_run]. *)
Theorem idle_worker_stays_idle (pattern : list sched_ev) (w : queue_world) :
  live w -> q_pc w = QWait -> q_pending w = 0 ->
  Forall (fun e => e <> EvEnqueue) pattern ->
  run_pattern ocf_queue_run pattern w = w.
Proof.
  intros (Hp & i & Hi & Hs & Hc & _) Hpc Hz Hall.
  induction Hall as [|e pattern He Hall IH]; [reflexivity|].
  cbn. 
  assert (Hsame : apply_ev ocf_queue_run w e = w).
  { destruct e; [congruence|reflexivity|].
    cbn. unfold queue_thread_step. rewrite Hi, Hpc, Hz, Hs. reflexivity. }
  rewrite Hsame. exact IH.
Qed.


Local Abbreviation step := (queue_thread_step ocf_queue_run).
Local Abbreviation wait := (wait_for_completion ocf_queue_run).







End QueueWorkerMore.

Section CleanerMore.

Import Threads.

Variable OCF_CLEANER_DISABLE : N.
Variable msecs_to_jiffies : N -> nat.

Local Abbreviation iteration :=
  (cleaner_iteration OCF_CLEANER_DISABLE msecs_to_jiffies).
Local Abbreviation loop :=
  (cleaner_loop OCF_CLEANER_DISABLE msecs_to_jiffies).

Definition is_run (e : cleaner_obs) : bool :=
  match e with ObsRun _ => true | _ => false end.
Definition is_slept (e : cleaner_obs) : bool :=
  match e with ObsSlept _ _ => true | _ => false end.

(** Passes started and waits returned in a piece of trace. *)
Definition passes (t : list cleaner_obs) : nat := length (filter is_run t).
Definition sleeps (t : list cleaner_obs) : nat := length (filter is_slept t).

Lemma print_pending_map (queues : list N) :
  forall i, print_pending queues i =
            map (fun p => ObsPending (snd p) (fst p))
                (combine (seq i (length queues)) queues).
Proof.
  induction queues as [|io rest IH]; intros i; cbn; [reflexivity|].
  rewrite IH. reflexivity.
Qed.

Lemma iteration_break o w w1 :
  iteration o w = IterBreak w1 -> w1 = w /\ stop (c_info w) = true.
Proof.
  unfold cleaner_iteration. destruct (stop (c_info w)) eqn:Hs.
  - intros [= <-]. auto.
  - destruct (cache_get_fastest_porter_queue (c_queues w)); [|intros [=]].
    cbn. destruct (_ =? _)%N.
    + destruct (wait_event_interruptible _ _) as [[? ?]|]; intros [=].
    + destruct (wait_event_interruptible_timeout _ _ _). intros [=].
Qed.

Lemma iteration_next o w w1 :
  iteration o w = IterNext w1 ->
  stop (c_info w) = false /\ c_queues w1 = c_queues w /\
  exists idx k n, c_trace w1 = c_trace w ++ [ObsRun idx; ObsSlept k n].
Proof.
  unfold cleaner_iteration. destruct (stop (c_info w)) eqn:Hs;
    [intros [=]|].
  destruct (cache_get_fastest_porter_queue (c_queues w)); [|intros [=]].
  cbn. destruct (_ =? _)%N.
  - destruct (wait_event_interruptible _ _) as [[? ?]|]; intros [=]; subst.
    cbn. eauto 10.
  - destruct (wait_event_interruptible_timeout _ _ _). intros [= <-].
    cbn. eauto 10.
Qed.

(** X4.  When the cleaner loop is left the stop flag is set and the
    exit is signalled; every pass that was started was followed by a
    wait that returned, at most one pass per turn; and the last thing
    traced is one line per queue, in index order, with the queue's
    pending count. *)
Theorem cleaner_loop_exit (os : list iter_oracle) :
  forall w w',
    loop os w = LoopExited w' ->
    stop (c_info w') = true /\ compl (c_info w') = true /\
    c_queues w' = c_queues w /\
    exists turns,
      c_trace w' =
        c_trace w ++ turns ++
        map (fun p => ObsPending (snd p) (fst p))
            (combine (seq 0 (length (c_queues w))) (c_queues w)) /\
      passes turns = sleeps turns /\ (passes turns <= length os)%nat.
Proof.
  induction os as [|o os IH]; intros w w'; cbn.
  - destruct (stop (c_info w)) eqn:Hs; [|intros [=]].
    intros [= <-]. cbn. rewrite Hs. repeat split.
    exists []. cbn. rewrite print_pending_map. auto.
  - destruct (iteration o w) as [w1|w1|w1|] eqn:Hit;
      [| |intros [=]|intros [=]].
    + apply iteration_break in Hit. destruct Hit as (-> & Hs).
      intros [= <-]. cbn. rewrite Hs. repeat split.
      exists []. cbn. rewrite print_pending_map. split; [reflexivity|].
      split; [reflexivity|lia].
    + apply iteration_next in Hit.
      destruct Hit as (_ & Hq & idx & k & n & Ht).
      intros Hl. apply IH in Hl.
      destruct Hl as (A & B & C & turns & D & E & F).
      split; [exact A|]. split; [exact B|]. split; [congruence|].
      exists ([ObsRun idx; ObsSlept k n] ++ turns).
      rewrite D, Ht, Hq. rewrite <- !app_assoc. split; [reflexivity|].
      unfold passes, sleeps in *. cbn. split; lia.
Qed.


Lemma woken_stays i e : woken i = true -> woken (apply_wake i e) = true.
Proof.
  unfold woken. destruct e; cbn; intros H.
  - reflexivity.
  - apply orb_true_r.
Qed.

Lemma fold_wake_flags (evs : list wake_ev) :
  forall i,
    (woken i = true \/ evs <> [] ->
       woken (fold_left apply_wake evs i) = true) /\
    (stop i = true \/ In WStop evs ->
       stop (fold_left apply_wake evs i) = true) /\
    (kicked i = true \/ In WKick evs ->
       kicked (fold_left apply_wake evs i) = true).
Proof.
  induction evs as [|e evs IH]; intros i; cbn.
  - repeat split; intros [H|H]; auto; contradiction.
  - destruct (IH (apply_wake i e)) as (A & B & C). repeat split.
    + intros _. apply A. left.
      destruct e; unfold woken; cbn; auto using orb_true_r.
    + intros [H|[H|H]]; apply B; auto.
      * left. destruct e; cbn; auto.
      * left. subst e. reflexivity.
    + intros [H|[H|H]]; apply C; auto.
      * left. destruct e; cbn; auto.
      * left. subst e. reflexivity.
Qed.

Lemma wait_forever_awake ticks i :
  woken i = true -> wait_event_interruptible ticks i = Some (i, O).
Proof. intros H. destruct ticks; cbn; rewrite H; reflexivity. Qed.

Lemma wait_timeout_awake ticks timeout i :
  woken i = true ->
  wait_event_interruptible_timeout ticks timeout i = (i, O).
Proof. intros H. destruct timeout; cbn; rewrite H; reflexivity. Qed.

(** X5.  A kick or a stop that arrives while the pass runs is not lost,
    although the kicked flag was cleared before the pass: the wait that
    follows returns at once, whichever of the two waits it is; after a
    kick the flag is set, after a stop the loop is left at the next
    turn without another pass. *)
Theorem pass_events_not_lost (o : iter_oracle) (w : cleaner_world)
        (s : selection) :
  stop (c_info w) = false ->
  cache_get_fastest_porter_queue (c_queues w) = Some s ->
  it_during_pass o <> [] ->
  exists w' k,
    iteration o w = IterNext w' /\
    c_trace w' = c_trace w ++ [ObsRun (sel_index s); ObsSlept k O] /\
    (In WKick (it_during_pass o) -> kicked (c_info w') = true) /\
    (In WStop (it_during_pass o) ->
       forall os, loop (o :: os) w = LoopExited (cleaner_exit w')).
Proof.
  intros Hs Hq Hne.
  assert (Hloop : forall w' os, iteration o w = IterNext w' ->
            stop (c_info w') = true ->
            loop (o :: os) w = LoopExited (cleaner_exit w')).
  { intros w' os Hit Hst. cbn. rewrite Hit.
    destruct os as [|o' os]; cbn.
    - rewrite Hst. reflexivity.
    - unfold cleaner_iteration. rewrite Hst. reflexivity. }
  revert Hloop. unfold cleaner_iteration. rewrite Hs, Hq.
  set (info0 := set_sync_compl false (set_kicked false (c_info w))).
  destruct (fold_wake_flags (it_during_pass o) info0) as (Hwk & Hst & Hki).
  set (info1 := fold_left apply_wake (it_during_pass o) info0) in *.
  assert (Hw1 : woken (_cas_cleaner_complete (it_interval o) info1) = true).
  { unfold woken in *. cbn. apply Hwk. auto. }
  destruct (_ =? _)%N.
  - rewrite wait_forever_awake by exact Hw1. intros Hloop.
    eexists _, _. split; [reflexivity|]. split; [reflexivity|]. split.
    + intros Hin. cbn. apply Hki. auto.
    + intros Hin os. apply Hloop; [reflexivity|]. cbn. apply Hst. auto.
  - rewrite wait_timeout_awake by exact Hw1. intros Hloop.
    eexists _, _. split; [reflexivity|]. split; [reflexivity|]. split.
    + intros Hin. cbn. apply Hki. auto.
    + intros Hin os. apply Hloop; [reflexivity|]. cbn. apply Hst. auto.
Qed.

End CleanerMore.

Section ThreadInstances.

Import Threads.

(** A worker started on an empty queue. *)
Definition idle_started : queue_world :=
  qw_pc QWait
    (qw_priv true
       (qw_info (Some (set_compl true fresh_info)) (new_queue 0))).

Lemma idle_started_live : live idle_started.
Proof.
  split; [reflexivity|]. eexists. split; [reflexivity|].
  cbn. auto.
Defined.


Lemma idle_worker_stays_idle_witness :
  run_pattern (fun _ => 0%N) [EvKick; EvThread; EvKick; EvThread]
              idle_started = idle_started.
Proof.
  apply (@idle_worker_stays_idle (fun _ => 0%N)).
  - exact idle_started_live.
  - reflexivity.
  - reflexivity.
  - repeat constructor; discriminate.
Defined.


(** A cleaner on two queues, stopped one jiffy into its first wait. *)
Lemma cleaner_loop_exit_witness :
  exists w',
    cleaner_loop 4294967295 N.to_nat [mk_io 250 [] [Some WStop]]
                 (mk_cw fresh_info [5; 3]%N []) = LoopExited w' /\
    stop (c_info w') = true /\ c_queues w' = [5; 3]%N.
Proof.
  set (r := cleaner_loop 4294967295 N.to_nat [mk_io 250 [] [Some WStop]]
                         (mk_cw fresh_info [5; 3]%N [])).
  assert (H : r = LoopExited (match r with
                              | LoopExited w' => w'
                              | _ => mk_cw fresh_info [] []
                              end)) by (vm_compute; reflexivity).
  destruct (@cleaner_loop_exit 4294967295 N.to_nat _ _ _ H)
    as (A & _ & B & _).
  eexists. split; [exact H|]. split; [exact A|exact B].
Defined.

Lemma pass_events_not_lost_witness :
  exists w' k,
    cleaner_iteration 4294967295 N.to_nat (mk_io 250 [WKick] [])
                      (mk_cw fresh_info [5; 3]%N []) = IterNext w' /\
    c_trace w' = [ObsRun 1; ObsSlept k O].
Proof.
  destruct (@pass_events_not_lost 4294967295 N.to_nat
              (mk_io 250 [WKick] []) (mk_cw fresh_info [5; 3]%N [])
              (mk_sel 1 2) eq_refl eq_refl)
    as (w' & k & A & B & _).
  - discriminate.
  - exists w', k. auto.
Defined.

End ThreadInstances.
